(** * UFO 360: the level table, the session state machine, the obstacle
      lane, the craft controller and the camera rig

    A shallow embedding of [levelConfig.ts], [App.tsx],
    [components/PipeSystem.tsx], [components/Scene.tsx], the buttons of
    [components/GameUI.tsx] and the hooks [useBackgroundMusic] and
    [usePersistentState].

    Numbers.  JavaScript numbers that only ever hold integers (score, level,
    lives, star coins, pipes passed) are [Z].  Numbers that hold decimal
    fractions (speeds, positions, frame deltas) are rationals [Q]; the camera
    rig, which needs sine and cosine, works over the reals [R].  Both are the
    exact-arithmetic reading of the IEEE doubles of the source. *)

From Stdlib Require Import ZArith QArith Qabs Qminmax Qround Bool List String Lia.
From Stdlib Require Import Reals Lra Psatz.
Import ListNotations.

(* ===================================================================== *)
(** ** levelConfig.ts *)
(* ===================================================================== *)

Module LevelConfig.

Local Open Scope Q_scope.
Local Open Scope string_scope.

Record LevelConfig := mkLevelConfig {
  gameSpeed : Q;
  gapHeight : Q;
  pipeSpacing : Q;
  pipeCount : Z;
  color : string;
  trapChance : Q
}.

Definition levels : list LevelConfig := [
  (* Level 1: Gentle Introduction *)
  mkLevelConfig 3.2 4.5 10 10 "#4CAF50" 0.1;
  (* Level 2: Slightly Faster *)
  mkLevelConfig 3.4 4.3 9.8 12 "#8BC34A" 0.12;
  (* Level 3: Gaps Tighten *)
  mkLevelConfig 3.6 4.1 9.6 14 "#CDDC39" 0.15;
  (* Level 4: Traps Become More Common *)
  mkLevelConfig 3.8 3.9 9.4 16 "#FFEB3B" 0.18;
  (* Level 5: Mid-game Challenge *)
  mkLevelConfig 4.0 3.7 9.2 18 "#FFC107" 0.22;
  (* Level 6: Noticeably Quicker *)
  mkLevelConfig 4.2 3.5 9.0 20 "#FF9800" 0.26;
  (* Level 7: Entering Hard Mode *)
  mkLevelConfig 4.4 3.4 8.8 22 "#F44336" 0.30;
  (* Level 8: Precision Required *)
  mkLevelConfig 4.6 3.3 8.6 24 "#E91E63" 0.35;
  (* Level 9: Nearing the End *)
  mkLevelConfig 4.8 3.2 8.4 26 "#9C27B0" 0.40;
  (* Level 10: Final Boss *)
  mkLevelConfig 5.0 3.1 8.2 30 "#3F51B5" 0.45
].

Definition MAX_LEVELS : Z := Z.of_nat (List.length levels).

(** [arr[i]] for an integer [i]: [None] is JavaScript's [undefined], which
    is what an index below 0 or past the end reads. *)
Definition index {A : Type} (arr : list A) (i : Z) : option A :=
  if (i <? 0)%Z then None else nth_error arr (Z.to_nat i).

(** [levels[Math.min(level - 1, levels.length - 1)]] *)
Definition getLevelConfig (level : Z) : option LevelConfig :=
  index levels (Z.min (level - 1) (Z.of_nat (List.length levels) - 1)).

End LevelConfig.

(* ===================================================================== *)
(** ** App.tsx: the session state machine *)
(* ===================================================================== *)

Module App.

Import LevelConfig.
Local Open Scope Z_scope.

(** [types.ts] *)
Inductive GameState :=
| cameraSetup | ready | playing | paused | pausedCameraSetup
| gameOver | levelComplete | victory.

Inductive SoundName :=
| snd_score | snd_coin | snd_trap | snd_crash | snd_flap
| snd_lifeUp | snd_levelComplete | snd_pause.

(** The [useState] cells of [App] that make up the session. *)
Record State := mkState {
  gameState : GameState;
  score : Z;
  level : Z;
  lives : Z;
  starCoins : Z;
  pipesPassed : Z
}.

Inductive Cell := Score | Level | Lives | StarCoins | PipesPassed.

Definition get (c : Cell) (st : State) : Z :=
  match c with
  | Score => score st
  | Level => level st
  | Lives => lives st
  | StarCoins => starCoins st
  | PipesPassed => pipesPassed st
  end.

Definition put (c : Cell) (v : Z) (st : State) : State :=
  match c with
  | Score => mkState (gameState st) v (level st) (lives st) (starCoins st) (pipesPassed st)
  | Level => mkState (gameState st) (score st) v (lives st) (starCoins st) (pipesPassed st)
  | Lives => mkState (gameState st) (score st) (level st) v (starCoins st) (pipesPassed st)
  | StarCoins => mkState (gameState st) (score st) (level st) (lives st) v (pipesPassed st)
  | PipesPassed => mkState (gameState st) (score st) (level st) (lives st) (starCoins st) v
  end.

Definition putGameState (g : GameState) (st : State) : State :=
  mkState g (score st) (level st) (lives st) (starCoins st) (pipesPassed st).

(** *** State setters

    A handler does not assign to the cells: it calls their setters, and React
    applies the queued updates of a cell in the order of the calls.  A call
    with a value or with a function that only computes is a [Call]; a call
    whose function itself calls setters ([setLives(l => { ... })] in
    [handleCrash]) is an [updater].  When the render runs such a function,
    the calls it makes are queued behind every call already made; when the
    setter runs it at the call, they are queued before its result (see
    [enqueue] below).  An updater that throws (reading a field of
    [undefined]) has no result. *)

Inductive Call :=
| setGameState (g : GameState)
| setValue (c : Cell) (v : Z)          (* setX(v) *)
| setWith (c : Cell) (f : Z -> Z)      (* setX(x => f x) *)
| playSound (s : SoundName).

Inductive Dispatch :=
| call (c : Call)
| updater (c : Cell) (u : Z -> option (Z * list Call)).

(** The session together with the cues played so far. *)
Definition Out : Type := State * list SoundName.

Definition perform (o : Out) (c : Call) : Out :=
  match c with
  | setGameState g => (putGameState g (fst o), snd o)
  | setValue x v => (put x v (fst o), snd o)
  | setWith x f => (put x (f (get x (fst o))) (fst o), snd o)
  | playSound s => (fst o, snd o ++ [s])
  end.

(** The render applies the queue [q]; [queued] are the calls made by the
    functions it has run so far, applied after the queue. *)
Fixpoint drain (q : list Dispatch) (queued : list Call) (o : Out) : option Out :=
  match q with
  | [] => Some (fold_left perform queued o)
  | call c :: q' => drain q' queued (perform o c)
  | updater x u :: q' =>
      match u (get x (fst o)) with
      | None => None
      | Some (v, calls) => drain q' (queued ++ calls) (put x v (fst o), snd o)
      end
  end.

(** A handler closes over the values of the render that created it; [fire]
    runs it in the state it was created in and commits its updates.  Every
    function given to a setter is run by the render here: that is what React
    does when [App] already has an update pending at the call. *)
Definition fire (handler : State -> list Dispatch) (st : State) : option Out :=
  drain (handler st) [] (st, []).

(** *** A setter called while nothing is pending

    When [App] has no update pending, a setter does not leave its function to
    the render: React computes the new value at the call, from the state of
    the last render, and queues that value.  The setter calls that the
    function makes are then in the queue before the function's own result.
    A call that gives the value the cell already has is dropped, and [App]
    still has nothing pending after it. *)

Definition GameState_eqb (a b : GameState) : bool :=
  match a, b with
  | cameraSetup, cameraSetup | ready, ready | playing, playing
  | paused, paused | pausedCameraSetup, pausedCameraSetup
  | gameOver, gameOver | levelComplete, levelComplete
  | victory, victory => true
  | _, _ => false
  end.

Definition unchanged (c : Call) (st : State) : bool :=
  match c with
  | setGameState g => GameState_eqb g (gameState st)
  | setValue x v => v =? get x st
  | setWith x f => f (get x st) =? get x st
  | playSound _ => true
  end.

(** The queue that the calls of a handler leave for the render; [idle]
    says that nothing is pending when the next call is made. *)
Fixpoint enqueue (idle : bool) (st : State) (q : list Dispatch)
  : option (list Dispatch) :=
  match q with
  | [] => Some []
  | d :: q' =>
      if idle then
        match d with
        | call c => option_map (cons d) (enqueue (unchanged c st) st q')
        | updater x u =>
            match u (get x st) with
            | None => None
            | Some (v, calls) =>
                option_map
                  (app (map call calls ++ [ call (setValue x v) ]))
                  (enqueue
                     (forallb (fun c => unchanged c st) calls
                      && (v =? get x st))
                     st q')
            end
        end
      else Some q
  end.

(** [fire] for a handler called with or without an update pending. *)
Definition fireWhen (idle : bool) (handler : State -> list Dispatch)
    (st : State) : option Out :=
  match enqueue idle st (handler st) with
  | None => None
  | Some q => drain q [] (st, [])
  end.

(** *** The handlers *)

Definition startGame (startLevel : Z) : list Dispatch :=
  [ call (setValue Score 0);
    call (setValue Lives 5);   (* a fresh start always begins with 5 lives *)
    call (setValue Level startLevel);
    call (setValue StarCoins 0);
    call (setValue PipesPassed 0);
    call (setGameState ready) ].

Definition handleConfirmCamera (_ : State) : list Dispatch := startGame 1.

Definition handleRestartFromBeginning (_ : State) : list Dispatch :=
  [ call (setGameState cameraSetup) ].

Definition handleRestartLevel (st : State) : list Dispatch :=
  startGame (level st).

Definition handlePipePass (st : State) : list Dispatch :=
  [ call (playSound snd_score);
    call (setWith Score (fun s => s + 1));
    updater PipesPassed (fun p =>
      let newPipesPassed := p + 1 in
      match getLevelConfig (level st) with
      | None => None   (* config.pipeCount of undefined *)
      | Some config =>
          if (0 <? pipeCount config) && (pipeCount config <=? newPipesPassed)
          then Some (newPipesPassed,
                     [ playSound snd_levelComplete; setGameState levelComplete ])
          else Some (newPipesPassed, [])
      end) ].

Definition handleCoinCollect (_ : State) : list Dispatch :=
  [ call (playSound snd_coin);
    call (setWith Score (fun s => s + 5));
    updater StarCoins (fun sc =>
      let newStarCoins := sc + 1 in
      if 25 <=? newStarCoins
      then Some (newStarCoins - 25,
                 [ setWith Lives (fun l => l + 1); playSound snd_lifeUp ])
      else Some (newStarCoins, [])) ].

Definition handleTrapHit (_ : State) : list Dispatch :=
  [ call (playSound snd_trap);
    call (setWith Score (fun s => Z.max 0 (s - 3))) ].

Definition handleCrash (st : State) : list Dispatch :=
  [ call (playSound snd_crash);
    updater Lives (fun l =>
      let newLives := l - 1 in
      if 0 <? newLives then
        (* still has lives, restart current level *)
        Some (newLives, [ setValue PipesPassed 0; setGameState ready ])
      else if 1 <? level st then
        (* no lives left, level demotion *)
        Some (newLives,
              [ playSound snd_trap;
                setWith Level (fun currentLevel => currentLevel - 1);
                setValue Lives 3;
                setValue PipesPassed 0;
                setGameState ready ])
      else
        (* was on level 1, true game over *)
        Some (newLives, [ setGameState gameOver ])) ].

Definition handleNextLevel (st : State) : list Dispatch :=
  if MAX_LEVELS <=? level st then
    [ call (setGameState victory) ]
  else
    [ call (playSound snd_lifeUp);
      call (setWith Lives (fun l => l + 1));   (* gain a life on level up *)
      call (setWith Level (fun l => l + 1));
      call (setValue PipesPassed 0);
      call (setGameState ready) ].

Definition handlePauseToggle (st : State) : list Dispatch :=
  match gameState st with
  | playing => [ call (playSound snd_pause); call (setGameState paused) ]
  | paused => [ call (playSound snd_pause); call (setGameState playing) ]
  | _ => []
  end.

(** The events of the collision resolver that change the score. *)
Inductive ScoreEvent := PipePass | CoinCollect | TrapHit.

Definition onScoreEvent (e : ScoreEvent) : State -> list Dispatch :=
  match e with
  | PipePass => handlePipePass
  | CoinCollect => handleCoinCollect
  | TrapHit => handleTrapHit
  end.

(** The events one after the other, each handler created by the render that
    followed the event before it. *)
Fixpoint deliver (es : list ScoreEvent) (st : State) : option State :=
  match es with
  | [] => Some st
  | e :: es' =>
      match fire (onScoreEvent e) st with
      | None => None
      | Some o => deliver es' (fst o)
      end
  end.

End App.

(* ===================================================================== *)
(** ** components/PipeSystem.tsx: the obstacle lane *)
(* ===================================================================== *)

Module PipeSystem.

Import LevelConfig.
Local Open Scope Q_scope.

Definition PIPE_BODY_HEIGHT : Q := 20.
Definition INDICATOR_AHEAD_DISTANCE : Q := 5.

(** [a < b] on numbers *)
Definition Qltb (a b : Q) : bool := negb (Qle_bool b a).

(** A segment with the fields of its three.js objects that the code reads
    or writes. *)
Record PipeSegment := mkSegment {
  groupZ : Q;            (* group.position.z *)
  pipe0Y : Q;            (* pipes[0].position.y *)
  pipe1Y : Q;            (* pipes[1].position.y *)
  coinY : Q;             (* coin.position.y *)
  coinRotationY : Q;     (* coin.rotation.y *)
  coinVisible : bool;    (* coin.visible *)
  indicatorY : Q;        (* warningIndicator.position.y *)
  indicatorZ : Q;        (* warningIndicator.position.z *)
  isTrap : bool;
  passed : bool;
  coinCollected : bool
}.

(** One element of [Array.from({ length: config.pipeCount }, ...)];
    [random] is the draw of [Math.random()]. *)
Definition newSegment (config : LevelConfig) (random : Q) : PipeSegment :=
  mkSegment 0 0 0 0 0 true 0 0 (Qltb random (trapChance config)) false false.

Definition pipeSegments (config : LevelConfig) (random : nat -> Q)
  : list PipeSegment :=
  map (fun i => newSegment config (random i))
      (seq 0 (Z.to_nat (pipeCount config))).

Definition resetPipe (config : LevelConfig) (segment : PipeSegment)
    (zPos random : Q) : PipeSegment :=
  let GAP_Y_RANGE := (-2 + gapHeight config / 2, 6 - gapHeight config / 2) in
  let gapCenterY :=
    fst GAP_Y_RANGE + random * (snd GAP_Y_RANGE - fst GAP_Y_RANGE) in
  mkSegment
    zPos
    (gapCenterY + gapHeight config / 2 + PIPE_BODY_HEIGHT / 2)
    (gapCenterY - gapHeight config / 2 - PIPE_BODY_HEIGHT / 2)
    gapCenterY
    (coinRotationY segment)
    true
    gapCenterY
    INDICATOR_AHEAD_DISTANCE
    (isTrap segment)
    false
    false.

(** The effect on [[pipeSegments, config, gameState, resetPipe]]: segment
    [i] goes back to [-(i * pipeSpacing) - startOffset]. *)
Fixpoint resetFrom (config : LevelConfig) (random : nat -> Q) (i : nat)
    (segments : list PipeSegment) : list PipeSegment :=
  match segments with
  | [] => []
  | segment :: rest =>
      let startOffset := gameSpeed config * 4 in
      resetPipe config segment
        (- (inject_Z (Z.of_nat i) * pipeSpacing config) - startOffset)
        (random i)
      :: resetFrom config random (S i) rest
  end.

Definition resetAll (config : LevelConfig) (random : nat -> Q)
    (segments : list PipeSegment) : list PipeSegment :=
  resetFrom config random 0 segments.

(** The body of the [forEach] of [movePipes]; the flag says whether
    [onPipePass] was called. *)
Definition moveSegment (config : LevelConfig) (delta : Q)
    (segment : PipeSegment) : PipeSegment * bool :=
  let z := groupZ segment + gameSpeed config * delta in
  let rot := coinRotationY segment + 2 * delta in
  if negb (passed segment) && Qltb 0 z then
    (mkSegment z (pipe0Y segment) (pipe1Y segment) (coinY segment) rot
       (coinVisible segment) (indicatorY segment) (indicatorZ segment)
       (isTrap segment) true (coinCollected segment),
     true)
  else
    (mkSegment z (pipe0Y segment) (pipe1Y segment) (coinY segment) rot
       (coinVisible segment) (indicatorY segment) (indicatorZ segment)
       (isTrap segment) (passed segment) (coinCollected segment),
     false).

(** [movePipes(delta, onPipePass)]: the segments after the tick and, per
    segment, whether it called [onPipePass]. *)
Definition movePipes (config : LevelConfig) (delta : Q)
    (segments : list PipeSegment) : list PipeSegment * list bool :=
  (map (fun s => fst (moveSegment config delta s)) segments,
   map (fun s => snd (moveSegment config delta s)) segments).

(** Consecutive ticks with no reset in between: the lane after the last
    one and the flags of every tick. *)
Fixpoint ticks (config : LevelConfig) (deltas : list Q)
    (segments : list PipeSegment) : list PipeSegment * list (list bool) :=
  match deltas with
  | [] => (segments, [])
  | delta :: deltas' =>
      let '(segments1, flags) := movePipes config delta segments in
      let '(segments2, trace) := ticks config deltas' segments1 in
      (segments2, flags :: trace)
  end.



End PipeSystem.

(* ===================================================================== *)
(** ** components/Scene.tsx: the craft, the collision loop, the crash guard *)
(* ===================================================================== *)

Module Scene.

Import LevelConfig PipeSystem.
Local Open Scope Q_scope.
Local Open Scope string_scope.
Local Open Scope list_scope.

(** New arcade physics *)
Definition JUMP_FORCE : Q := 7.     (* the immediate upward velocity applied on tap *)
Definition GRAVITY : Q := -15.      (* constant downward force *)

(** Collision radii *)
Definition UFO_RADIUS : Q := 0.8.
Definition COIN_RADIUS : Q := 0.6.

Record Vector3 := mkVector3 { x : Q; y : Q; z : Q }.

(** What the scene calls: the props of [SceneProps] and the particle
    system's [trigger]. *)
Inductive Callback :=
| onPipePass
| onCoinCollect
| onTrapHit
| onCrash
| onFlap
| trigger (position : Vector3) (color : string) (count : Z).

(** The refs of the scene and its [useState] cell.  [isCrashing] here is
    the cell, as [setIsCrashing] last set it.  [crashTimers] counts the
    [setTimeout] callbacks that have not run yet. *)
Record State := mkState {
  ufoPosition : Vector3;     (* ufoRef.current.position *)
  ufoRotation : Vector3;     (* ufoRef.current.rotation *)
  ufoVisible : bool;         (* ufoRef.current.visible *)
  ufoVelocity : Q;           (* ufoVelocity.current *)
  isCrashing : bool;
  crashTimers : nat;
  segments : list PipeSegment   (* pipeSystemRef.current.segments *)
}.

(** What one call of the frame callback reads.  The callback and
    [handleImmediateCrash] are made anew by every render of [Scene] and
    close over its props and over the [isCrashing] of that render:
    [wasCrashing] is that value, which is the cell's only once the scene
    has rendered again after the last [setIsCrashing]. *)
Record Frame := mkFrame {
  gameState : App.GameState;
  config : LevelConfig;      (* getLevelConfig(level) of the pipe system *)
  wasCrashing : bool;        (* isCrashing, as the last render saw it *)
  delta : Q;
  elapsedTime : Q            (* state.clock.elapsedTime *)
}.

Section Geometry.

(** three.js and [Math.sin] are taken as given: whether the craft's sphere
    at a position meets the box of pipe [k] of a segment, whether it meets
    the sphere of the segment's coin, and the sine. *)
Variable intersectsBox : Vector3 -> PipeSegment -> nat -> bool.
Variable intersectsSphere : Vector3 -> PipeSegment -> bool.
Variable Math_sin : Q -> Q.

Definition handleImmediateCrash (wasCrashing : bool) (position : Vector3)
    (st : State) : State * list Callback :=
  if wasCrashing then (st, [])
  else
    (mkState (ufoPosition st) (ufoRotation st) false (ufoVelocity st)
       true (S (crashTimers st)) (segments st),
     [ trigger position "#c0c0c0" 40;    (* metal *)
       trigger position "#FFFF00" 20;    (* light *)
       trigger position "#FF4500" 30 ]). (* fire *)

(** The callback given to [setTimeout]; there is none to run when no timer
    is pending. *)
Definition crashTimeout (st : State) : option (State * list Callback) :=
  match crashTimers st with
  | O => None
  | S n =>
      Some (mkState (ufoPosition st) (ufoRotation st) (ufoVisible st)
              (ufoVelocity st) false n (segments st),
            [ onCrash ])
  end.

Definition resetUFO (st : State) : State :=
  mkState (mkVector3 0 2 0) (mkVector3 0 0 0) true 0
    (isCrashing st) (crashTimers st) (segments st).

(** [flapRef.current] *)
Definition flap (st : State) : State * list Callback :=
  (mkState (ufoPosition st) (ufoRotation st) (ufoVisible st) JUMP_FORCE
     (isCrashing st) (crashTimers st) (segments st),
   [ onFlap ]).

Definition hideCoin (s : PipeSegment) : PipeSegment :=
  mkSegment (groupZ s) (pipe0Y s) (pipe1Y s) (coinY s) (coinRotationY s)
    false (indicatorY s) (indicatorZ s) (isTrap s) (passed s) (coinCollected s).

(** The [for] loop over the segments: the segments after it, the calls it
    made, and whether it left through a crash. *)
Fixpoint collide (ufoPos : Vector3) (todo : list PipeSegment)
  : list PipeSegment * list Callback * bool :=
  match todo with
  | [] => ([], [], false)
  | segment :: rest =>
      if Qltb (Qabs (groupZ segment - z ufoPos)) (UFO_RADIUS + 1.2) then
        if intersectsBox ufoPos segment 0 || intersectsBox ufoPos segment 1
        then (segment :: rest, [], true)
        else if coinVisible segment && intersectsSphere ufoPos segment then
          let coinPos := mkVector3 0 (coinY segment) (groupZ segment) in
          let calls :=
            if isTrap segment
            then [ trigger coinPos "#DC143C" 30; onTrapHit ]
            else [ trigger coinPos "#FFD700" 30; onCoinCollect ] in
          let '(rest', calls', crashed) := collide ufoPos rest in
          (hideCoin segment :: rest', calls ++ calls', crashed)
        else
          let '(rest', calls', crashed) := collide ufoPos rest in
          (segment :: rest', calls', crashed)
      else
        let '(rest', calls', crashed) := collide ufoPos rest in
        (segment :: rest', calls', crashed)
  end.

(** The callback of [useFrame] in [Scene]. *)
Definition useFrame (f : Frame) (st : State) : State * list Callback :=
  if wasCrashing f then (st, [])
  else
    match gameState f with
    | App.playing =>
        (* apply gravity, update position, keep the craft level *)
        let velocity := ufoVelocity st + GRAVITY * delta f in
        let ufoPos :=
          mkVector3 (x (ufoPosition st))
                    (y (ufoPosition st) + velocity * delta f)
                    (z (ufoPosition st)) in
        let rotation :=
          mkVector3 (x (ufoRotation st)) (y (ufoRotation st)) 0 in
        let '(moved, flags) := movePipes (config f) (delta f) (segments st) in
        let passes := map (fun _ => onPipePass) (filter (fun b => b) flags) in
        if Qltb (y ufoPos) (-5) || Qltb 10 (y ufoPos) then
          let '(st', calls) :=
            handleImmediateCrash (wasCrashing f) ufoPos
              (mkState ufoPos rotation (ufoVisible st) velocity
                 (isCrashing st) (crashTimers st) moved) in
          (st', passes ++ calls)
        else
          let '(checked, calls, crashed) := collide ufoPos moved in
          let st1 :=
            mkState ufoPos rotation (ufoVisible st) velocity
              (isCrashing st) (crashTimers st) checked in
          if crashed then
            let '(st', calls') :=
              handleImmediateCrash (wasCrashing f) ufoPos st1 in
            (st', passes ++ calls ++ calls')
          else (st1, passes ++ calls)
    | App.ready | App.cameraSetup =>
        (mkState
           (mkVector3 (x (ufoPosition st))
                      (2 + Math_sin (elapsedTime f * 2) * 0.1)
                      (z (ufoPosition st)))
           (mkVector3 (x (ufoRotation st)) (y (ufoRotation st)) 0)
           (ufoVisible st) (ufoVelocity st) (isCrashing st) (crashTimers st)
           (segments st),
         [])
    | _ => (st, [])
    end.

(** What can happen to the scene: a frame, a flap, a collision reported
    again by a closure that saw [wasCrashing], the crash timer. *)
Inductive Event :=
| frame (f : Frame)
| tap
| crashAt (wasCrashing : bool) (position : Vector3)
| timeout.

Definition step (e : Event) (st : State) : option (State * list Callback) :=
  match e with
  | frame f => Some (useFrame f st)
  | tap => Some (flap st)
  | crashAt wasCrashing position =>
      Some (handleImmediateCrash wasCrashing position st)
  | timeout => crashTimeout st
  end.

Fixpoint run (es : list Event) (st : State) : option (State * list Callback) :=
  match es with
  | [] => Some (st, [])
  | e :: es' =>
      match step e st with
      | None => None
      | Some (st1, calls) =>
          match run es' st1 with
          | None => None
          | Some (st2, calls') => Some (st2, calls ++ calls')
          end
      end
  end.

(** At most one crash timer is pending, and exactly while crashing. *)
Definition guarded (st : State) : Prop :=
  crashTimers st = if isCrashing st then 1%nat else 0%nat.

(** [n] flap inputs one after the other, no frame in between. *)
Fixpoint flaps (n : nat) (st : State) : State :=
  match n with
  | O => st
  | S n' => flaps n' (fst (flap st))
  end.

End Geometry.

End Scene.

(* ===================================================================== *)
(** ** components/Scene.tsx: [DynamicCamera] *)
(* ===================================================================== *)

Module Camera.

Local Open Scope R_scope.

Record Vector3 := mkVector3 { x : R; y : R; z : R }.

(** [cameraRotation] *)
Record Rotation := mkRotation { azimuth : R; polar : R }.

(** three.js, [Vector3.setFromSpherical] of
    [new Spherical(radius, phi, theta)] *)
Definition setFromSpherical (radius phi theta : R) : Vector3 :=
  let sinPhiRadius := sin phi * radius in
  mkVector3 (sinPhiRadius * sin theta) (cos phi * radius)
            (sinPhiRadius * cos theta).

(** three.js, [Vector3.add] *)
Definition add (a b : Vector3) : Vector3 :=
  mkVector3 (x a + x b) (y a + y b) (z a + z b).

(** three.js, [Vector3.lerp]: [this.x += (v.x - this.x) * alpha], and the
    same for [y] and [z] *)
Definition lerp (this v : Vector3) (alpha : R) : Vector3 :=
  mkVector3 (x this + (x v - x this) * alpha)
            (y this + (y v - y this) * alpha)
            (z this + (z v - z this) * alpha).

Definition distanceToSquared (a b : Vector3) : R :=
  (x a - x b) * (x a - x b) + (y a - y b) * (y a - y b)
  + (z a - z b) * (z a - z b).

Definition DEFAULT_FOV : R := 75.

Record PerspectiveCamera := mkCamera {
  position : Vector3;
  lookAtTarget : option Vector3;   (* userData.lookAtTarget; the camera looks at it *)
  fov : R
}.

Definition isInitialStatic (gameState : App.GameState) : bool :=
  match gameState with
  | App.cameraSetup | App.ready => true
  | _ => false
  end.

Definition isPausedStatic (gameState : App.GameState) : bool :=
  match gameState with
  | App.paused | App.pausedCameraSetup => true
  | _ => false
  end.

Definition isPlaying (gameState : App.GameState) : bool :=
  match gameState with
  | App.playing => true
  | _ => false
  end.

Definition lookAtPosition (gameState : App.GameState) (ufoPosition : Vector3)
  : Vector3 :=
  if isInitialStatic gameState
  then mkVector3 0 2 0        (* start position *)
  else ufoPosition.           (* current position *)

Definition targetPosition (gameState : App.GameState) (zoomLevel : R)
    (cameraRotation : Rotation) (ufoPosition : Vector3) : Vector3 :=
  let distance := 7 * zoomLevel in
  add (setFromSpherical distance (polar cameraRotation)
         (azimuth cameraRotation))
      (lookAtPosition gameState ufoPosition).

Definition lerpFactor (gameState : App.GameState) : R :=
  match gameState with
  | App.cameraSetup | App.pausedCameraSetup => 1
  | _ => 0.1
  end.

(** The callback of [useFrame] in [DynamicCamera], with the craft and the
    camera mounted. *)
Definition useFrame (gameState : App.GameState) (zoomLevel : R)
    (cameraRotation : Rotation) (ufoPosition : Vector3)
    (camera : PerspectiveCamera) : PerspectiveCamera :=
  (* only update the camera if the game is playing or in a static state *)
  if negb (isPlaying gameState) && negb (isInitialStatic gameState)
     && negb (isPausedStatic gameState)
  then camera
  else
    let lookAt := lookAtPosition gameState ufoPosition in
    let target := targetPosition gameState zoomLevel cameraRotation ufoPosition in
    let factor := lerpFactor gameState in
    let lookAtTarget' :=
      lerp (match lookAtTarget camera with
            | Some v => v
            | None => mkVector3 0 0 0
            end)
           lookAt factor in
    mkCamera (lerp (position camera) target factor) (Some lookAtTarget')
             DEFAULT_FOV.

(** The effect on [[gameState, cameraRotation, zoomLevel, ufoRef]]: the
    initial position is set without lerping. *)
Definition cameraEffect (gameState : App.GameState) (zoomLevel : R)
    (cameraRotation : Rotation) (camera : PerspectiveCamera)
  : PerspectiveCamera :=
  if isInitialStatic gameState then
    let lookAt := mkVector3 0 2 0 in
    let distance := 7 * zoomLevel in
    mkCamera
      (add (setFromSpherical distance (polar cameraRotation)
              (azimuth cameraRotation)) lookAt)
      (Some lookAt) (fov camera)
  else camera.

End Camera.

(* ===================================================================== *)
(** ** App.tsx: camera controls and input *)
(* ===================================================================== *)

Module Controls.

Local Open Scope Q_scope.

Definition ZOOM_MIN : Q := 0.5.
Definition ZOOM_MAX : Q := 3.0.
Definition ZOOM_SENSITIVITY : Q := 0.001.
Definition ZOOM_BUTTON_STEP : Q := 0.25.
Definition ROTATION_SENSITIVITY : Q := 0.01.

(** [Math.PI], the double written out *)
Definition Math_PI : Q := 3.141592653589793.

(** [Math.trunc] and the remainder [a % b] of JavaScript, which keeps the
    sign of [a] *)
Definition Math_trunc (q : Q) : Z :=
  if Qle_bool 0 q then Qfloor q else Qceiling q.

Definition rem (a b : Q) : Q := a - b * inject_Z (Math_trunc (a / b)).

Record Rotation := mkRotation { azimuth : Q; polar : Q }.

(** [dragStateRef.current] *)
Record DragState := mkDrag { isDragging : bool; lastX : Q; lastY : Q }.

(** The cells of [App] behind the camera: the persisted zoom and rotation,
    their temporary copies for the adjustment while paused, and the mode. *)
Record State := mkState {
  gameState : App.GameState;
  zoomLevel : Q;
  cameraRotation : Rotation;
  tempZoomLevel : Q;
  tempCameraRotation : Rotation;
  dragState : DragState
}.

Definition isSetup (g : App.GameState) : bool :=
  match g with
  | App.cameraSetup | App.pausedCameraSetup => true
  | _ => false
  end.

Definition isPausedSetup (g : App.GameState) : bool :=
  match g with
  | App.pausedCameraSetup => true
  | _ => false
  end.

(** [setZoomLevel(zoomUpdater)] followed by the effect on [[zoomLevel]],
    which copies a zoom that changed into the temporary one. *)
Definition setZoomLevel (zoomUpdater : Q -> Q) (st : State) : State :=
  let newZoom := zoomUpdater (zoomLevel st) in
  mkState (gameState st) newZoom (cameraRotation st)
    (if Qeq_bool newZoom (zoomLevel st) then tempZoomLevel st else newZoom)
    (tempCameraRotation st) (dragState st).

Definition setTempZoomLevel (zoomUpdater : Q -> Q) (st : State) : State :=
  mkState (gameState st) (zoomLevel st) (cameraRotation st)
    (zoomUpdater (tempZoomLevel st)) (tempCameraRotation st) (dragState st).

(** [setCameraRotation] with a new object, followed by the effect on
    [[cameraRotation]]. *)
Definition setCameraRotation (r : Rotation) (st : State) : State :=
  mkState (gameState st) (zoomLevel st) r (tempZoomLevel st) r (dragState st).

Definition setTempCameraRotation (r : Rotation) (st : State) : State :=
  mkState (gameState st) (zoomLevel st) (cameraRotation st)
    (tempZoomLevel st) r (dragState st).

Definition setGameState (g : App.GameState) (st : State) : State :=
  mkState g (zoomLevel st) (cameraRotation st) (tempZoomLevel st)
    (tempCameraRotation st) (dragState st).

Definition setDragState (d : DragState) (st : State) : State :=
  mkState (gameState st) (zoomLevel st) (cameraRotation st)
    (tempZoomLevel st) (tempCameraRotation st) d.

Definition handleZoom (deltaY : Q) (st : State) : State :=
  let zoomUpdater := fun prevZoom =>
    let newZoom := prevZoom + deltaY * ZOOM_SENSITIVITY in
    Qmax ZOOM_MIN (Qmin ZOOM_MAX newZoom) in
  if isPausedSetup (gameState st)
  then setTempZoomLevel zoomUpdater st
  else setZoomLevel zoomUpdater st.

Definition handleZoomIn (st : State) : State :=
  let zoomUpdater := fun prev => Qmax ZOOM_MIN (prev - ZOOM_BUTTON_STEP) in
  if isPausedSetup (gameState st)
  then setTempZoomLevel zoomUpdater st
  else setZoomLevel zoomUpdater st.

Definition handleZoomOut (st : State) : State :=
  let zoomUpdater := fun prev => Qmin ZOOM_MAX (prev + ZOOM_BUTTON_STEP) in
  if isPausedSetup (gameState st)
  then setTempZoomLevel zoomUpdater st
  else setZoomLevel zoomUpdater st.

Definition handleWheel (deltaY : Q) (st : State) : State :=
  if isSetup (gameState st) then handleZoom deltaY st else st.

(** The fields of a pointer event that the handlers read;
    [secondaryTouch] is [pointerType === 'touch' && isPrimary === false]. *)
Record PointerEvent := mkPointer {
  secondaryTouch : bool;
  clientX : Q;
  clientY : Q
}.

Definition onPointerDown (e : PointerEvent) (st : State) : State :=
  if negb (isSetup (gameState st)) || secondaryTouch e then st
  else setDragState (mkDrag true (clientX e) (clientY e)) st.

Definition rotationUpdater (deltaX deltaY : Q) (prev : Rotation) : Rotation :=
  let newAzimuth :=
    rem (azimuth prev - deltaX * ROTATION_SENSITIVITY) (Math_PI * 2) in
  let newPolar :=
    Qmax 0.1 (Qmin (Math_PI - 0.1) (polar prev + deltaY * ROTATION_SENSITIVITY)) in
  mkRotation newAzimuth newPolar.

Definition onPointerMove (e : PointerEvent) (st : State) : State :=
  if negb (isDragging (dragState st)) || negb (isSetup (gameState st))
     || secondaryTouch e
  then st
  else
    let deltaX := clientX e - lastX (dragState st) in
    let deltaY := clientY e - lastY (dragState st) in
    let st1 :=
      if isPausedSetup (gameState st)
      then setTempCameraRotation
             (rotationUpdater deltaX deltaY (tempCameraRotation st)) st
      else setCameraRotation
             (rotationUpdater deltaX deltaY (cameraRotation st)) st in
    setDragState (mkDrag (isDragging (dragState st)) (clientX e) (clientY e)) st1.

Definition onPointerUp (e : PointerEvent) (st : State) : State :=
  if secondaryTouch e then st
  else setDragState
         (mkDrag false (lastX (dragState st)) (lastY (dragState st))) st.

Definition handleEnterPauseCameraSetup (st : State) : State :=
  setGameState App.pausedCameraSetup
    (setTempZoomLevel (fun _ => zoomLevel st)
       (setTempCameraRotation (cameraRotation st) st)).

Definition handleReturnToPauseWithoutUpdate (st : State) : State :=
  setGameState App.paused st.

Definition handleReturnToPauseWithUpdate (st : State) : State :=
  setGameState App.paused
    (setZoomLevel (fun _ => tempZoomLevel st)
       (setCameraRotation (tempCameraRotation st) st)).

(** The props [zoomLevel] and [cameraRotation] that [App] gives to [Scene]. *)
Definition sceneZoomLevel (st : State) : Q :=
  if isPausedSetup (gameState st) then tempZoomLevel st else zoomLevel st.

Definition sceneCameraRotation (st : State) : Rotation :=
  if isPausedSetup (gameState st) then tempCameraRotation st
  else cameraRotation st.

(** What the player can do to the camera. *)
Inductive Gesture :=
| wheel (deltaY : Q)
| zoomIn
| zoomOut
| pointerDown (e : PointerEvent)
| pointerMove (e : PointerEvent)
| pointerUp (e : PointerEvent).

Definition gesture (g : Gesture) (st : State) : State :=
  match g with
  | wheel deltaY => handleWheel deltaY st
  | zoomIn => handleZoomIn st
  | zoomOut => handleZoomOut st
  | pointerDown e => onPointerDown e st
  | pointerMove e => onPointerMove e st
  | pointerUp e => onPointerUp e st
  end.

Definition gestures (gs : list Gesture) (st : State) : State :=
  fold_left (fun s g => gesture g s) gs st.

(** The zoom buttons are rendered in the two setup modes only; the other
    gestures reach their handlers in every mode. *)
Definition byButton (g : Gesture) : bool :=
  match g with
  | zoomIn | zoomOut => true
  | _ => false
  end.

Definition zoomInRange (st : State) : Prop :=
  (ZOOM_MIN <= zoomLevel st <= ZOOM_MAX)
  /\ (ZOOM_MIN <= tempZoomLevel st <= ZOOM_MAX).

Definition rotationInRange (r : Rotation) : Prop :=
  (- (Math_PI * 2) < azimuth r < Math_PI * 2)
  /\ (0.1 <= polar r <= Math_PI - 0.1).

(** [handleInput]: the mode after the input and whether
    [flapRef.current] is called; [touches] is [e.touches.length] of a touch
    event. *)
Definition handleInput (touches : option nat) (g : App.GameState)
  : App.GameState * bool :=
  if isSetup g then (g, false)
  else
    match touches with
    | Some n => if (1 <? n)%nat then (g, false)
                else
                  match g with
                  | App.ready => (App.playing, true)
                  | App.playing => (g, true)
                  | _ => (g, false)
                  end
    | None =>
        match g with
        | App.ready => (App.playing, true)
        | App.playing => (g, true)
        | _ => (g, false)
        end
    end.

End Controls.

(* ===================================================================== *)
(** ** hooks/useBackgroundMusic.ts *)
(* ===================================================================== *)

Module Music.

Definition NOTE_DURATION : Q := 0.25.
Definition MELODY_SEQUENCE : list Z := [0; 4; 7; 12; 7; 4; 0; -5]%Z.
Definition MASTER_VOLUME : Q := 0.1.

(** [baseFreq * Math.pow(2, semitones / 12)] *)
Definition semitonesToFrequency (baseFreq semitones : R) : R :=
  (baseFreq * Rpower 2 (semitones / 12))%R.

Definition C4_FREQ : R := 261.63%R.

Local Open Scope Z_scope.

(** The note of [scheduleNotes] for a value of [noteIndexRef.current];
    [None] is [undefined]. *)
Definition melodyNote (noteIndex : Z) : option Z :=
  let length := Z.of_nat (List.length MELODY_SEQUENCE) in
  let pingPongLength := length * 2 - 2 in
  let effectiveIndex :=
    Z.rem noteIndex (if pingPongLength =? 0 then 1 else pingPongLength) in
  if effectiveIndex <? length
  then LevelConfig.index MELODY_SEQUENCE effectiveIndex
  else LevelConfig.index MELODY_SEQUENCE (pingPongLength - effectiveIndex).

(** The frequencies that one call of [scheduleNotes] plays: the melody, and
    the two harmonies from levels 3 and 5 on. *)
Record Chord := mkChord {
  melody : R;
  harmony3 : option R;
  harmony5 : option R
}.

Definition scheduleNotes (level noteIndex : Z) : option Chord :=
  let levelShift := level - 1 in
  let levelAdjustedBaseFreq := semitonesToFrequency C4_FREQ (IZR levelShift) in
  match melodyNote noteIndex with
  | None => None
  | Some note =>
      Some (mkChord
              (semitonesToFrequency levelAdjustedBaseFreq (IZR note))
              (if 3 <=? level
               then Some (semitonesToFrequency levelAdjustedBaseFreq (IZR (note + 4)))
               else None)
              (if 5 <=? level
               then Some (semitonesToFrequency levelAdjustedBaseFreq (IZR (note + 7)))
               else None))
  end.

(** The refs of the hook and the timers of the window. *)
Record Player := mkPlayer {
  audio : bool;                (* the context, the master gain and the layers exist *)
  schedulerRef : option nat;   (* schedulerRef.current *)
  intervals : list nat;        (* set by setInterval and not cleared *)
  nextInterval : nat;          (* the id that the next setInterval returns *)
  noteIndexRef : Z;
  masterGain : Q               (* the value the master gain ramps to *)
}.

Definition clearScheduler (p : Player) : Player :=
  match schedulerRef p with
  | Some id =>
      mkPlayer (audio p) None (List.remove Nat.eq_dec id (intervals p))
        (nextInterval p) (noteIndexRef p) (masterGain p)
  | None => p
  end.

Record Props := mkProps {
  gameState : App.GameState;
  level : Z;
  isEnabled : bool
}.

Definition shouldPlay (props : Props) : bool :=
  match gameState props with
  | App.playing => isEnabled props
  | _ => false
  end.

(** The effect on [[gameState, level, isEnabled]] *)
Definition effect (props : Props) (p : Player) : Player :=
  let p1 := clearScheduler p in
  if negb (audio p1) then p1
  else if shouldPlay props then
    (* the first note at once, then one every NOTE_DURATION *)
    mkPlayer (audio p1) (Some (nextInterval p1))
      (nextInterval p1 :: intervals p1) (S (nextInterval p1))
      (0 + 1) MASTER_VOLUME
  else
    mkPlayer (audio p1) (schedulerRef p1) (intervals p1) (nextInterval p1)
      (noteIndexRef p1) 0.

(** and its cleanup *)
Definition cleanup (p : Player) : Player := clearScheduler p.

(** A render with changed props: the cleanup of the last effect, then the
    effect. *)
Definition update (p : Player) (props : Props) : Player :=
  effect props (cleanup p).

(** An interval that fires calls [scheduleNotes]. *)
Definition intervalFires (p : Player) : Player :=
  match schedulerRef p with
  | Some _ =>
      mkPlayer (audio p) (schedulerRef p) (intervals p) (nextInterval p)
        (noteIndexRef p + 1) (masterGain p)
  | None => p
  end.

End Music.

(* ===================================================================== *)
(** ** hooks/usePersistentState.ts *)
(* ===================================================================== *)

Module PersistentState.

(** [window.localStorage]: [None] for a key is [null]. *)
Definition Storage : Type := string -> option string.

Definition setItem (storage : Storage) (key value : string) : Storage :=
  fun k => if String.eqb k key then Some value else storage k.

Section Hook.

(** JSON is taken as given; [parse] has no result where [JSON.parse]
    throws. *)
Variable T : Type.
Variable stringify : T -> string.
Variable parse : string -> option T.

(** The initial state.  [storage] is [None] when reading it throws. *)
Definition initialState (storage : option Storage) (key : string)
    (defaultValue : T) : T :=
  match storage with
  | None => defaultValue
  | Some s =>
      match s key with
      | None => defaultValue
      | Some storedValue =>
          if String.eqb storedValue "" then defaultValue
          else match parse storedValue with
               | Some v => v
               | None => defaultValue
               end
      end
  end.

(** The effect on [[key, state]]; a storage that throws stays as it is. *)
Definition persist (storage : option Storage) (key : string) (state : T)
  : option Storage :=
  match storage with
  | None => None
  | Some s => Some (setItem s key (stringify state))
  end.

End Hook.

End PersistentState.

(* ===================================================================== *)
(** ** The game: [App], [GameUI], [Scene] and [PipeSystem] wired together *)
(* ===================================================================== *)

Module Game.

Import LevelConfig.

Definition GameState_eq_dec (a b : App.GameState) : {a = b} + {a <> b}.
Proof. decide equality. Defined.

(** The session of [App] and the refs and cells of [Scene] and
    [PipeSystem]. *)
Record World := mkWorld {
  session : App.State;
  scene : Scene.State
}.

(** The draws of [Math.random()] that a render may use: one per new
    segment for its kind, one per reset segment for its gap. *)
Record Random := mkRandom {
  trapDraw : nat -> Q;
  gapDraw : nat -> Q
}.

(** The buttons of [GameUI]. *)
Inductive Button :=
| StartFlight        (* onConfirmCamera *)
| RetryLevel         (* onRestartLevel; "Play Final Level" after victory *)
| MainMenu           (* onRestartFromBeginning; "Quit" while paused *)
| NextLevel          (* onNextLevel *)
| Resume             (* onPause *)
| PauseButton        (* onPause *)
| AdjustCamera       (* onEnterPauseCameraSetup *)
| ReturnToGame.      (* onReturnToPauseWithoutUpdate, onReturnToPauseWithUpdate *)

(** [getMessage] and the rest of the markup: the modes in which a button
    is rendered. *)
Definition rendered (b : Button) (g : App.GameState) : bool :=
  match b, g with
  | StartFlight, App.cameraSetup => true
  | RetryLevel, (App.gameOver | App.victory) => true
  | MainMenu, (App.gameOver | App.victory | App.paused) => true
  | NextLevel, App.levelComplete => true
  | Resume, App.paused => true
  | PauseButton, App.playing => true
  | AdjustCamera, App.paused => true
  | ReturnToGame, App.pausedCameraSetup => true
  | _, _ => false
  end.

Inductive Input :=
| Frame (delta elapsedTime : Q)      (* a frame of the render loop *)
| Timer (idle : bool)                (* the crash timeout runs, with or without
                                        an update of App pending *)
| Flap (touches : option nat)        (* handleInput: key, mouse, touch, arcade button *)
| PauseKey                           (* Escape or p *)
| Click (b : Button).

Definition enabled (i : Input) (w : World) : bool :=
  match i with
  | Timer _ => negb (Nat.eqb (Scene.crashTimers (scene w)) 0)
  | Click b => rendered b (App.gameState (session w))
  | _ => true
  end.

Section Wiring.

Variable intersectsBox : Scene.Vector3 -> PipeSystem.PipeSegment -> nat -> bool.
Variable intersectsSphere : Scene.Vector3 -> PipeSystem.PipeSegment -> bool.
Variable Math_sin : Q -> Q.

(** The props that [App] passes to [Scene]. *)
Definition handlerOf (c : Scene.Callback) : App.State -> list App.Dispatch :=
  match c with
  | Scene.onPipePass => App.handlePipePass
  | Scene.onCoinCollect => App.handleCoinCollect
  | Scene.onTrapHit => App.handleTrapHit
  | Scene.onCrash => App.handleCrash
  | Scene.onFlap => fun _ => [ App.call (App.playSound App.snd_flap) ]
  | Scene.trigger _ _ _ => fun _ => []
  end.

(** The calls of one frame or one timeout, batched into one render;
    [idle] says that [App] has no update pending at the first of them. *)
Definition dispatch (idle : bool) (calls : list Scene.Callback)
    (st : App.State) : option App.State :=
  option_map fst
    (App.fireWhen idle (fun st => flat_map (fun c => handlerOf c st) calls) st).

(** The index of the table entry that [getLevelConfig] reads. *)
Definition configIndex (level : Z) : Z :=
  Z.min (level - 1) (Z.of_nat (List.length levels) - 1).

(** The effects of a render in which the session went from [old] to
    [new]: [PipeSystem] makes new segments when its config is another
    object and resets the lane when the config or the mode changed;
    [Scene] resets the craft when the mode or the level changed and the
    mode is ready.  Without a config the render throws. *)
Definition effects (random : Random) (old new : App.State) (sc : Scene.State)
  : option Scene.State :=
  match getLevelConfig (App.level new) with
  | None => None
  | Some config =>
      let configChanged :=
        negb (configIndex (App.level old) =? configIndex (App.level new))%Z in
      let levelChanged := negb (App.level old =? App.level new)%Z in
      let modeChanged :=
        if GameState_eq_dec (App.gameState old) (App.gameState new)
        then false else true in
      let segments1 :=
        if configChanged
        then PipeSystem.pipeSegments config (trapDraw random)
        else Scene.segments sc in
      let segments2 :=
        if configChanged || modeChanged
        then PipeSystem.resetAll config (gapDraw random) segments1
        else segments1 in
      let sc1 :=
        Scene.mkState (Scene.ufoPosition sc) (Scene.ufoRotation sc)
          (Scene.ufoVisible sc) (Scene.ufoVelocity sc) (Scene.isCrashing sc)
          (Scene.crashTimers sc) segments2 in
      Some (if (modeChanged || levelChanged)
               && (if GameState_eq_dec (App.gameState new) App.ready
                   then true else false)
            then Scene.resetUFO sc1
            else sc1)
  end.

Definition render (random : Random) (w : World) (new : App.State)
    (sc : Scene.State) : option World :=
  option_map (mkWorld new) (effects random (session w) new sc).

Definition click (b : Button) (st : App.State) : option App.State :=
  match b with
  | StartFlight => option_map fst (App.fire App.handleConfirmCamera st)
  | RetryLevel => option_map fst (App.fire App.handleRestartLevel st)
  | MainMenu => option_map fst (App.fire App.handleRestartFromBeginning st)
  | NextLevel => option_map fst (App.fire App.handleNextLevel st)
  | Resume | PauseButton => option_map fst (App.fire App.handlePauseToggle st)
  | AdjustCamera => Some (App.putGameState App.pausedCameraSetup st)
  | ReturnToGame => Some (App.putGameState App.paused st)
  end.

(** One input, followed by the render that it causes: [App] and [Scene]
    have rendered before the next input, so that a frame sees the
    [isCrashing] that the cell holds and every handler the session of its
    call.  [None] when a handler or the render throws. *)
Definition step (random : Random) (i : Input) (w : World) : option World :=
  match i with
  | Frame delta elapsedTime =>
      match getLevelConfig (App.level (session w)) with
      | None => None
      | Some config =>
          let '(sc, calls) :=
            Scene.useFrame intersectsBox intersectsSphere Math_sin
              (Scene.mkFrame (App.gameState (session w)) config
                 (Scene.isCrashing (scene w)) delta elapsedTime)
              (scene w) in
          (* the calls of a frame leave the same queue either way *)
          match dispatch false calls (session w) with
          | None => None
          | Some new => render random w new sc
          end
      end
  | Timer idle =>
      match Scene.crashTimeout (scene w) with
      | None => Some w
      | Some (sc, calls) =>
          match dispatch idle calls (session w) with
          | None => None
          | Some new => render random w new sc
          end
      end
  | Flap touches =>
      let '(g, flapped) :=
        Controls.handleInput touches (App.gameState (session w)) in
      render random w (App.putGameState g (session w))
        (if flapped then fst (Scene.flap (scene w)) else scene w)
  | PauseKey =>
      match App.fire App.handlePauseToggle (session w) with
      | None => None
      | Some o => render random w (fst o) (scene w)
      end
  | Click b =>
      match click b (session w) with
      | None => None
      | Some new => render random w new (scene w)
      end
  end.

(** Inputs one after the other, each with the draws of its render; an
    input that is not enabled stops the run. *)
Fixpoint play (inputs : list (Input * Random)) (w : World) : option World :=
  match inputs with
  | [] => Some w
  | (i, random) :: rest =>
      if enabled i w then
        match step random i w with
        | None => None
        | Some w' => play rest w'
        end
      else None
  end.

End Wiring.

(** The world after the first render and its effects: the menu, the craft
    where three.js puts a new group, the lane of level 1. *)
Definition initialSession : App.State := App.mkState App.cameraSetup 0 1 5 0 0.

Definition initial (random : Random) : option World :=
  match getLevelConfig 1 with
  | None => None
  | Some config =>
      Some (mkWorld initialSession
              (Scene.mkState (Scene.mkVector3 0 0 0) (Scene.mkVector3 0 0 0)
                 true 0 false 0
                 (PipeSystem.resetAll config (gapDraw random)
                    (PipeSystem.pipeSegments config (trapDraw random)))))
  end.

(** A session within the table, and a world in which at most one crash is
    being processed and the lane has the segments of its level. *)
Definition sessionInv (st : App.State) : Prop :=
  (1 <= App.level st <= MAX_LEVELS)%Z
  /\ (0 <= App.score st)%Z
  /\ (0 <= App.starCoins st < 25)%Z
  /\ (0 <= App.pipesPassed st)%Z
  /\ (App.gameState st = App.gameOver -> App.level st = 1%Z)
  /\ (App.gameState st = App.victory -> App.level st = MAX_LEVELS).

Definition invariant (w : World) : Prop :=
  sessionInv (session w)
  /\ Scene.guarded (scene w)
  /\ (0 <= App.lives (session w))%Z
  /\ (App.lives (session w) = 0%Z ->
        (App.gameState (session w) = App.gameOver
         \/ App.gameState (session w) = App.cameraSetup)
        /\ Scene.isCrashing (scene w) = false)
  /\ (exists config,
        getLevelConfig (App.level (session w)) = Some config
        /\ Z.of_nat (List.length (Scene.segments (scene w))) = pipeCount config).

(** The craft stays on its line and level. *)
Definition levelFlight (w : World) : Prop :=
  Scene.x (Scene.ufoPosition (scene w)) = 0%Q
  /\ Scene.z (Scene.ufoPosition (scene w)) = 0%Q
  /\ Scene.z (Scene.ufoRotation (scene w)) = 0%Q.

End Game.

(* ===================================================================== *)
(** ** Runs: handlers, ticks and frames in sequence *)
(* ===================================================================== *)

Module Runs.

(** A config that a game can be built on, and a config at least as hard
    as another. *)
Definition wellFormedb (c : LevelConfig.LevelConfig) : bool :=
  negb (Qle_bool (LevelConfig.gameSpeed c) 0)
  && negb (Qle_bool (LevelConfig.gapHeight c) 0)
  && Qle_bool (LevelConfig.gapHeight c) 8
  && negb (Qle_bool (LevelConfig.pipeSpacing c) 0)
  && (0 <? LevelConfig.pipeCount c)%Z
  && Qle_bool 0 (LevelConfig.trapChance c)
  && Qle_bool (LevelConfig.trapChance c) 1.

Definition harderb (c1 c2 : LevelConfig.LevelConfig) : bool :=
  Qle_bool (LevelConfig.gameSpeed c1) (LevelConfig.gameSpeed c2)
  && Qle_bool (LevelConfig.gapHeight c2) (LevelConfig.gapHeight c1)
  && Qle_bool (LevelConfig.pipeSpacing c2) (LevelConfig.pipeSpacing c1)
  && (LevelConfig.pipeCount c1 <=? LevelConfig.pipeCount c2)%Z
  && Qle_bool (LevelConfig.trapChance c1) (LevelConfig.trapChance c2).

(** The handlers of [App] that change the session. *)
Inductive Action :=
| ConfirmCamera | RestartFromBeginning | RestartLevel
| PipePass | CoinCollect | TrapHit | Crash
| NextLevel | PauseToggle.

Definition handler (a : Action) : App.State -> list App.Dispatch :=
  match a with
  | ConfirmCamera => App.handleConfirmCamera
  | RestartFromBeginning => App.handleRestartFromBeginning
  | RestartLevel => App.handleRestartLevel
  | PipePass => App.handlePipePass
  | CoinCollect => App.handleCoinCollect
  | TrapHit => App.handleTrapHit
  | Crash => App.handleCrash
  | NextLevel => App.handleNextLevel
  | PauseToggle => App.handlePauseToggle
  end.

(** The handlers one after the other, with a render after each. *)
Fixpoint perform (actions : list Action) (st : App.State) : option App.State :=
  match actions with
  | [] => Some st
  | a :: rest =>
      match App.fire (handler a) st with
      | None => None
      | Some o => perform rest (fst o)
      end
  end.





(** The calls of [onPipePass] in one tick and in a trace of ticks. *)
Definition passesOf (flags : list bool) : nat :=
  List.length (filter (fun b => b) flags).

Fixpoint totalPasses (trace : list (list bool)) : nat :=
  match trace with
  | [] => 0
  | flags :: rest => passesOf flags + totalPasses rest
  end.

(** The segments that have not been passed yet. *)
Definition unpassed (segments : list PipeSystem.PipeSegment) : nat :=
  List.length (filter (fun s => negb (PipeSystem.passed s)) segments).

(** The time that a list of frame deltas adds up to. *)
Definition elapsed (deltas : list Q) : Q := fold_right Qplus 0%Q deltas.

(** The collect calls in the calls of a frame. *)
Definition isCollect (c : Scene.Callback) : bool :=
  match c with
  | Scene.onCoinCollect | Scene.onTrapHit => true
  | _ => false
  end.

Definition visibleCoins (segments : list PipeSystem.PipeSegment) : nat :=
  List.length (filter PipeSystem.coinVisible segments).

(** [n] frames of the camera with the same props and the craft at rest. *)
Fixpoint cameraFrames (n : nat) (gameState : App.GameState) (zoomLevel : R)
    (cameraRotation : Camera.Rotation) (ufoPosition : Camera.Vector3)
    (camera : Camera.PerspectiveCamera) : Camera.PerspectiveCamera :=
  match n with
  | O => camera
  | S n' =>
      cameraFrames n' gameState zoomLevel cameraRotation ufoPosition
        (Camera.useFrame gameState zoomLevel cameraRotation ufoPosition camera)
  end.

(** The renders of the music hook for a sequence of changed props. *)
Definition musicUpdates (props : list Music.Props) (p : Music.Player)
  : Music.Player :=
  fold_left Music.update props p.

End Runs.

(* ===================================================================== *)
(** * Properties *)
(* ===================================================================== *)

(** ** The level table *)

Section LevelTable.

Import LevelConfig.
Local Open Scope Z_scope.

Lemma MAX_LEVELS_eq : MAX_LEVELS = 10.
Proof. reflexivity. Qed.

Lemma getLevelConfig_in_table (L : Z) :
  1 <= L <= MAX_LEVELS ->
  getLevelConfig L = nth_error levels (Z.to_nat (L - 1)).
Proof.
  intros HL. unfold getLevelConfig, index.
  rewrite MAX_LEVELS_eq in HL.
  change (Z.of_nat (List.length levels) - 1) with 9.
  rewrite Z.min_l by lia.
  destruct (Z.ltb_spec (L - 1) 0) as [Hneg | _]; [lia | reflexivity].
Qed.

Lemma getLevelConfig_beyond (L : Z) :
  MAX_LEVELS <= L -> getLevelConfig L = nth_error levels 9.
Proof.
  intros HL. unfold getLevelConfig, index.
  rewrite MAX_LEVELS_eq in HL.
  change (Z.of_nat (List.length levels) - 1) with 9.
  rewrite Z.min_r by lia. reflexivity.
Qed.

Lemma getLevelConfig_defined (L : Z) :
  1 <= L -> exists config, getLevelConfig L = Some config.
Proof.
  intros HL. destruct (Z_le_gt_dec L MAX_LEVELS) as [H | H].
  - rewrite getLevelConfig_in_table by lia.
    rewrite MAX_LEVELS_eq in H.
    destruct (nth_error levels (Z.to_nat (L - 1))) as [c |] eqn:E.
    + now exists c.
    + apply nth_error_None in E. simpl in E. lia.
  - rewrite getLevelConfig_beyond by lia. now eexists.
Qed.

(** C3.  For a level [L] of the table, [1 <= L <= MAX_LEVELS],
    [getLevelConfig L] is the [L]-th entry of [levels] (each of the ten
    tuned tuples is listed); for every [L] past the table it is the last
    entry, and [getLevelConfig (MAX_LEVELS + 5)] equals
    [getLevelConfig MAX_LEVELS]. *)
Theorem getLevelConfig_table_clamped :
  (forall L, 1 <= L <= MAX_LEVELS ->
     getLevelConfig L = nth_error levels (Z.to_nat (L - 1))
     /\ exists config, getLevelConfig L = Some config)
  /\ (getLevelConfig 1 = Some (mkLevelConfig 3.2 4.5 10 10 "#4CAF50" 0.1)
      /\ getLevelConfig 2 = Some (mkLevelConfig 3.4 4.3 9.8 12 "#8BC34A" 0.12)
      /\ getLevelConfig 3 = Some (mkLevelConfig 3.6 4.1 9.6 14 "#CDDC39" 0.15)
      /\ getLevelConfig 4 = Some (mkLevelConfig 3.8 3.9 9.4 16 "#FFEB3B" 0.18)
      /\ getLevelConfig 5 = Some (mkLevelConfig 4.0 3.7 9.2 18 "#FFC107" 0.22)
      /\ getLevelConfig 6 = Some (mkLevelConfig 4.2 3.5 9.0 20 "#FF9800" 0.26)
      /\ getLevelConfig 7 = Some (mkLevelConfig 4.4 3.4 8.8 22 "#F44336" 0.30)
      /\ getLevelConfig 8 = Some (mkLevelConfig 4.6 3.3 8.6 24 "#E91E63" 0.35)
      /\ getLevelConfig 9 = Some (mkLevelConfig 4.8 3.2 8.4 26 "#9C27B0" 0.40)
      /\ getLevelConfig 10 = Some (mkLevelConfig 5.0 3.1 8.2 30 "#3F51B5" 0.45))
  /\ (forall L, MAX_LEVELS < L ->
        getLevelConfig L = Some (mkLevelConfig 5.0 3.1 8.2 30 "#3F51B5" 0.45)
        /\ getLevelConfig L = getLevelConfig MAX_LEVELS)
  /\ getLevelConfig (MAX_LEVELS + 5) = getLevelConfig MAX_LEVELS.
Proof.
  split; [| split; [| split]].
  - intros L HL. split; [now apply getLevelConfig_in_table |].
    apply getLevelConfig_defined. lia.
  - repeat split; reflexivity.
  - intros L HL. rewrite !getLevelConfig_beyond by lia. split; reflexivity.
  - reflexivity.
Qed.

Lemma getLevelConfig_table_clamped_witness :
  (1 <= 3 <= MAX_LEVELS
   /\ getLevelConfig 3 = nth_error levels (Z.to_nat (3 - 1)))
  /\ (MAX_LEVELS < 15
      /\ getLevelConfig 15 = getLevelConfig MAX_LEVELS).
Proof.
  split.
  - split; [rewrite MAX_LEVELS_eq; lia |].
    apply (proj1 getLevelConfig_table_clamped 3).
    rewrite MAX_LEVELS_eq; lia.
  - split; [rewrite MAX_LEVELS_eq; lia |].
    apply (proj1 (proj2 (proj2 getLevelConfig_table_clamped)) 15).
    rewrite MAX_LEVELS_eq; lia.
Defined.

End LevelTable.

(** ** The session state machine *)

Section Session.

Import LevelConfig App.
Local Open Scope Z_scope.

Ltac by_cases :=
  repeat match goal with
         | |- context [Z.ltb ?a ?b] => destruct (Z.ltb_spec a b)
         | |- context [Z.leb ?a ?b] => destruct (Z.leb_spec a b)
         end;
  cbn; try lia; try reflexivity.

(** What a crash does, case by case, as one equation each. *)
Lemma handleCrash_lives_left (st : State) :
  1 < lives st ->
  fire handleCrash st =
    Some (mkState ready (score st) (level st) (lives st - 1) (starCoins st) 0,
          [snd_crash]).
Proof. intros H. unfold fire, handleCrash. cbn. by_cases. Qed.

Lemma handleCrash_demotion (st : State) :
  lives st <= 1 -> 1 < level st ->
  fire handleCrash st =
    Some (mkState ready (score st) (level st - 1) 3 (starCoins st) 0,
          [snd_crash; snd_trap]).
Proof. intros H1 H2. unfold fire, handleCrash. cbn. by_cases. Qed.

Lemma handleCrash_gameOver (st : State) :
  lives st <= 1 -> level st <= 1 ->
  fire handleCrash st =
    Some (mkState gameOver (score st) (level st) (lives st - 1) (starCoins st)
            (pipesPassed st),
          [snd_crash]).
Proof. intros H1 H2. unfold fire, handleCrash. cbn. by_cases. Qed.

(** The same with nothing pending at the call: the function given to
    [setLives] runs there, and its result is queued behind the calls it
    made. *)
Lemma handleCrash_lives_left_idle (st : State) :
  1 < lives st ->
  fireWhen true handleCrash st =
    Some (mkState ready (score st) (level st) (lives st - 1) (starCoins st) 0,
          [snd_crash]).
Proof. intros H. unfold fireWhen, handleCrash. cbn. by_cases. Qed.

Lemma handleCrash_demotion_idle (st : State) :
  lives st <= 1 -> 1 < level st ->
  fireWhen true handleCrash st =
    Some (mkState ready (score st) (level st - 1) (lives st - 1)
            (starCoins st) 0,
          [snd_crash; snd_trap]).
Proof. intros H1 H2. unfold fireWhen, handleCrash. cbn. by_cases. Qed.

Lemma handleCrash_gameOver_idle (st : State) :
  lives st <= 1 -> level st <= 1 ->
  fireWhen true handleCrash st =
    Some (mkState gameOver (score st) (level st) (lives st - 1) (starCoins st)
            (pipesPassed st),
          [snd_crash]).
Proof. intros H1 H2. unfold fireWhen, handleCrash. cbn. by_cases. Qed.

Lemma fireWhen_busy (handler : State -> list Dispatch) (st : State) :
  fireWhen false handler st = fire handler st.
Proof.
  unfold fireWhen, fire. destruct (handler st); reflexivity.
Qed.

(** C1.  A crash received while playing: with more than one life, one life
    is lost, the pipes passed in the attempt go back to 0 and the mode is
    ready; with the last life lost on level 1 the mode is gameOver.  With the
    last life lost on a level above 1 the mode is ready on the level below,
    but the lives are the 3 of the specification (and of the comment at
    [setLives(3)]) only when [App] has an update pending at the call.  With
    nothing pending, the function given to [setLives] runs at the call, its
    [setLives(3)] is queued before its own result, and the demoted session
    has the lives that the function returned: 0.  From lives 1 on level 5
    that is level 4, ready, and no life. *)
Theorem handleCrash_by_schedule (idle : bool) (st : State) :
  gameState st = playing ->
  exists st' log,
    fireWhen idle handleCrash st = Some (st', log)
    /\ (1 < lives st ->
          lives st' = lives st - 1 /\ pipesPassed st' = 0
          /\ gameState st' = ready /\ level st' = level st)
    /\ (lives st = 1 -> 1 < level st ->
          gameState st' = ready /\ level st' = level st - 1
          /\ pipesPassed st' = 0
          /\ lives st' = if idle then 0 else 3)
    /\ (lives st = 1 -> level st = 1 -> gameState st' = gameOver).
Proof.
  intros _.
  destruct (Z_lt_le_dec 1 (lives st)) as [Hl | Hl];
    [| destruct (Z_lt_le_dec 1 (level st)) as [Hv | Hv]];
    destruct idle; rewrite ?fireWhen_busy.
  - eexists _, _. split; [apply handleCrash_lives_left_idle; exact Hl |].
    cbn. repeat split; lia.
  - eexists _, _. split; [apply handleCrash_lives_left; exact Hl |].
    cbn. repeat split; lia.
  - eexists _, _. split; [apply handleCrash_demotion_idle; assumption |].
    cbn. repeat split; lia.
  - eexists _, _. split; [apply handleCrash_demotion; assumption |].
    cbn. repeat split; lia.
  - eexists _, _. split; [apply handleCrash_gameOver_idle; assumption |].
    cbn. repeat split; try lia; reflexivity.
  - eexists _, _. split; [apply handleCrash_gameOver; assumption |].
    cbn. repeat split; try lia; reflexivity.
Qed.

Lemma handleCrash_by_schedule_witness :
  exists st' log,
    fireWhen true handleCrash (mkState playing 0 5 1 0 0) = Some (st', log)
    /\ gameState st' = ready /\ level st' = 4 /\ lives st' = 0.
Proof.
  destruct (handleCrash_by_schedule true (mkState playing 0 5 1 0 0) eq_refl)
    as (st' & log & Hfire & _ & H5 & _).
  exists st', log. split; [exact Hfire |].
  destruct (H5 eq_refl ltac:(cbn; lia)) as (Hg & Hv & _ & Hl).
  cbn in Hv. auto.
Defined.

(** C2.  A bonus collect adds 5 to the score and 1 to the star coins; when
    that makes 25 or more, a life is added and 25 is taken off the tally.
    From 24 star coins the tally is 0 afterwards and there is one more
    life. *)
Theorem handleCoinCollect_wraps (st : State) :
  exists st' log,
    fire handleCoinCollect st = Some (st', log)
    /\ score st' = score st + 5
    /\ (starCoins st + 1 < 25 ->
          starCoins st' = starCoins st + 1 /\ lives st' = lives st)
    /\ (25 <= starCoins st + 1 ->
          starCoins st' = starCoins st + 1 - 25 /\ lives st' = lives st + 1)
    /\ (starCoins st = 24 -> starCoins st' = 0 /\ lives st' = lives st + 1)
    /\ gameState st' = gameState st /\ level st' = level st
    /\ pipesPassed st' = pipesPassed st.
Proof.
  unfold fire, handleCoinCollect. cbn.
  destruct (Z.leb_spec 25 (starCoins st + 1)) as [H | H];
    eexists _, _; (split; [reflexivity |]); cbn; repeat split; lia.
Qed.

Lemma handleCoinCollect_wraps_witness :
  exists st' log,
    fire handleCoinCollect (mkState playing 40 2 3 24 6) = Some (st', log)
    /\ starCoins st' = 0 /\ lives st' = 4.
Proof.
  destruct (handleCoinCollect_wraps (mkState playing 40 2 3 24 6))
    as (st' & log & Hfire & _ & _ & _ & H24 & _).
  exists st', log. split; [exact Hfire |].
  apply H24; reflexivity.
Defined.

(** The scoring handlers one by one. *)
Lemma handleCoinCollect_fire (st : State) :
  exists lv sc log,
    fire handleCoinCollect st =
      Some (mkState (gameState st) (score st + 5) (level st) lv sc
              (pipesPassed st),
            log)
    /\ (25 <= starCoins st + 1 ->
          lv = lives st + 1 /\ sc = starCoins st + 1 - 25)
    /\ (starCoins st + 1 < 25 -> lv = lives st /\ sc = starCoins st + 1).
Proof.
  unfold fire, handleCoinCollect. cbn.
  destruct (Z.leb_spec 25 (starCoins st + 1)) as [H | H];
    eexists _, _, _; (split; [reflexivity |]); cbn; split; lia.
Qed.

Lemma handleTrapHit_fire (st : State) :
  fire handleTrapHit st =
    Some (mkState (gameState st) (Z.max 0 (score st - 3)) (level st)
            (lives st) (starCoins st) (pipesPassed st),
          [snd_trap]).
Proof. reflexivity. Qed.

Lemma handlePipePass_fire (st : State) :
  1 <= level st ->
  exists g log,
    fire handlePipePass st =
      Some (mkState g (score st + 1) (level st) (lives st) (starCoins st)
              (pipesPassed st + 1),
            log).
Proof.
  intros HL. destruct (getLevelConfig_defined (level st) HL) as [config Hc].
  unfold fire, handlePipePass. cbn. rewrite Hc.
  destruct ((0 <? pipeCount config) && (pipeCount config <=? pipesPassed st + 1));
    cbn; now eexists _, _.
Qed.

Lemma onScoreEvent_fire (e : ScoreEvent) (st : State) :
  1 <= level st -> 0 <= score st ->
  exists st' log,
    fire (onScoreEvent e) st = Some (st', log)
    /\ level st' = level st /\ 0 <= score st'.
Proof.
  intros HL HS. destruct e; cbn [onScoreEvent].
  - destruct (handlePipePass_fire st HL) as (g & log & H).
    eexists _, _. split; [exact H |]. cbn. lia.
  - destruct (handleCoinCollect_fire st) as (lv & sc & log & H & _).
    eexists _, _. split; [exact H |]. cbn. lia.
  - eexists _, _. split; [apply handleTrapHit_fire |]. cbn. lia.
Qed.

Lemma deliver_hazards (n : nat) (st : State) :
  0 <= score st ->
  exists st', deliver (repeat TrapHit n) st = Some st' /\ 0 <= score st'.
Proof.
  revert st. induction n as [| n IH]; intros st HS; cbn [repeat deliver].
  - now exists st.
  - cbn [onScoreEvent]. rewrite handleTrapHit_fire. cbn [fst].
    apply IH. cbn. lia.
Qed.

Lemma deliver_events (es : list ScoreEvent) (st : State) :
  0 <= score st -> 1 <= level st ->
  exists st', deliver es st = Some st' /\ 0 <= score st'.
Proof.
  revert st. induction es as [| e es IH]; intros st HS HL; cbn [deliver].
  - now exists st.
  - destruct (onScoreEvent_fire e st HL HS) as (st1 & log & H & HL1 & HS1).
    rewrite H. cbn [fst]. apply IH; lia.
Qed.

(** C4.  A hazard collect sets the score to [max 0 (score - 3)]; from score
    0 any number of hazard collects leaves the score at 0 or above; and a
    score of 0 or above stays so through every sequence of pipe passes,
    bonus collects and hazard collects. *)
Theorem score_never_below_zero :
  (forall st, exists st' log,
      fire handleTrapHit st = Some (st', log)
      /\ score st' = Z.max 0 (score st - 3) /\ 0 <= score st')
  /\ (forall n st, score st = 0 ->
        exists st', deliver (repeat TrapHit n) st = Some st' /\ 0 <= score st')
  /\ (forall es st, 0 <= score st -> 1 <= level st ->
        exists st', deliver es st = Some st' /\ 0 <= score st').
Proof.
  split; [| split].
  - intros st. eexists _, _. split; [apply handleTrapHit_fire |].
    cbn. split; lia.
  - intros n st H0. apply deliver_hazards. lia.
  - intros es st. apply deliver_events.
Qed.

Lemma score_never_below_zero_witness :
  exists st',
    deliver [TrapHit; PipePass; TrapHit; CoinCollect; TrapHit; TrapHit; TrapHit]
      (mkState playing 0 1 5 0 0) = Some st'
    /\ 0 <= score st'.
Proof.
  apply (proj2 (proj2 score_never_below_zero)); cbn; lia.
Defined.

(** C5.  The next-level confirmation in levelComplete: below [MAX_LEVELS]
    the mode is ready with one more level and one more life; at or above
    [MAX_LEVELS] the mode is victory and level and lives are as they were. *)
Theorem handleNextLevel_levelComplete (st : State) :
  gameState st = levelComplete ->
  (level st < MAX_LEVELS ->
     fire handleNextLevel st =
       Some (mkState ready (score st) (level st + 1) (lives st + 1)
               (starCoins st) 0,
             [snd_lifeUp]))
  /\ (MAX_LEVELS <= level st ->
        fire handleNextLevel st =
          Some (mkState victory (score st) (level st) (lives st)
                  (starCoins st) (pipesPassed st),
                [])).
Proof.
  intros _. unfold fire, handleNextLevel.
  split; intros H; destruct (Z.leb_spec MAX_LEVELS (level st)); try lia;
    reflexivity.
Qed.

Lemma handleNextLevel_levelComplete_witness :
  fire handleNextLevel (mkState levelComplete 30 4 2 9 16)
    = Some (mkState ready 30 5 3 9 0, [snd_lifeUp])
  /\ fire handleNextLevel (mkState levelComplete 200 10 2 9 30)
      = Some (mkState victory 200 10 2 9 30, []).
Proof.
  split.
  - apply (proj1 (handleNextLevel_levelComplete
                    (mkState levelComplete 30 4 2 9 16) eq_refl)).
    vm_compute. reflexivity.
  - apply (proj2 (handleNextLevel_levelComplete
                    (mkState levelComplete 200 10 2 9 30) eq_refl)).
    vm_compute. discriminate.
Defined.

(** C10.  Retrying the level from gameOver or from victory: the mode is
    ready on the same level with score 0, 5 lives, no star coins and no
    pipes passed. *)
Theorem handleRestartLevel_retry (st : State) :
  gameState st = gameOver \/ gameState st = victory ->
  fire handleRestartLevel st = Some (mkState ready 0 (level st) 5 0 0, []).
Proof. intros _. reflexivity. Qed.

Lemma handleRestartLevel_retry_witness :
  fire handleRestartLevel (mkState gameOver 57 1 0 13 4)
    = Some (mkState ready 0 1 5 0 0, []).
Proof.
  apply (handleRestartLevel_retry (mkState gameOver 57 1 0 13 4)).
  left; reflexivity.
Defined.

End Session.

(** ** The obstacle lane *)

Section Lane.

Import LevelConfig PipeSystem.
Local Open Scope Q_scope.

Variable config : LevelConfig.

Lemma Qltb_lt (a b : Q) : Qltb a b = true <-> a < b.
Proof.
  unfold Qltb. rewrite negb_true_iff. split.
  - intros H. apply Qnot_le_lt. intros Hle.
    apply Qle_bool_iff in Hle. congruence.
  - intros H. destruct (Qle_bool b a) eqn:E; [| reflexivity].
    apply Qle_bool_iff in E. exfalso. exact (Qlt_not_le _ _ H E).
Qed.





(** The lane, one tick: segment [i] of the result is segment [i] moved. *)
Lemma movePipes_segment (delta : Q) (segments : list PipeSegment) (i : nat) :
  nth_error (fst (movePipes config delta segments)) i
    = option_map (fun s => fst (moveSegment config delta s))
        (nth_error segments i).
Proof. unfold movePipes. cbn [fst]. apply nth_error_map. Qed.




Lemma ticks_cons (delta : Q) (deltas : list Q) (segments : list PipeSegment) :
  ticks config (delta :: deltas) segments
    = (fst (ticks config deltas (fst (movePipes config delta segments))),
       snd (movePipes config delta segments)
       :: snd (ticks config deltas (fst (movePipes config delta segments)))).
Proof.
  cbn [ticks]. destruct (movePipes config delta segments) as [s1 flags].
  cbn [fst snd]. destruct (ticks config deltas s1). reflexivity.
Qed.





End Lane.

Section LaneResets.

Import LevelConfig PipeSystem.
Local Open Scope Q_scope.


End LaneResets.



(** ** The craft *)

Section Craft.

Import Scene.
Local Open Scope Q_scope.

Lemma flaps_velocity (n : nat) (st : State) :
  (1 <= n)%nat -> ufoVelocity (flaps n st) = 7.
Proof.
  revert st. induction n as [| n IH]; intros st Hn; [lia |].
  cbn [flaps]. destruct n as [| n].
  - reflexivity.
  - apply IH. lia.
Qed.

(** C6.  A flap sets the vertical velocity to the jump impulse 7 whatever
    it was; after one or more flaps in a row, with no frame in between, the
    velocity is 7, and a second flap leaves the craft as the first did. *)
Theorem flap_sets_jump_force :
  JUMP_FORCE = 7
  /\ (forall st, ufoVelocity (fst (flap st)) = JUMP_FORCE)
  /\ (forall n st, (1 <= n)%nat -> ufoVelocity (flaps n st) = 7)
  /\ (forall st, fst (flap (fst (flap st))) = fst (flap st)).
Proof.
  split; [reflexivity |]. split; [reflexivity |]. split.
  - intros n st. apply flaps_velocity.
  - reflexivity.
Qed.

Lemma flap_sets_jump_force_witness :
  ufoVelocity
    (flaps 3 (mkState (mkVector3 0 2 0) (mkVector3 0 0 0) true (-4.5)
                false 0 []))
  = 7.
Proof.
  apply (proj1 (proj2 (proj2 flap_sets_jump_force)) 3%nat). lia.
Defined.

End Craft.

(** ** The crash guard *)

Section CrashGuard.

Import PipeSystem Scene.
Local Open Scope Q_scope.

Variable intersectsBox : Vector3 -> PipeSegment -> nat -> bool.
Variable intersectsSphere : Vector3 -> PipeSegment -> bool.
Variable Math_sin : Q -> Q.

Local Abbreviation useFrame := (Scene.useFrame intersectsBox intersectsSphere Math_sin).
Local Abbreviation step := (Scene.step intersectsBox intersectsSphere Math_sin).
Local Abbreviation run := (Scene.run intersectsBox intersectsSphere Math_sin).

(** What the guard does for a closure that saw [isCrashing] set. *)
Lemma handleImmediateCrash_seen (position : Vector3) (st : State) :
  handleImmediateCrash true position st = (st, []).
Proof. reflexivity. Qed.

Lemma useFrame_seen (f : Frame) (st : State) :
  wasCrashing f = true -> useFrame f st = (st, []).
Proof. intros H. unfold Scene.useFrame. now rewrite H. Qed.

(** A frame in playing whose closure saw no crash, with the craft out of
    bounds after it. *)
Lemma useFrame_unseen (f : Frame) (st : State) :
  gameState f = App.playing -> wasCrashing f = false ->
  (y (ufoPosition st) + (ufoVelocity st + GRAVITY * delta f) * delta f < -5
   \/ 10 < y (ufoPosition st)
             + (ufoVelocity st + GRAVITY * delta f) * delta f) ->
  useFrame f st
  = (mkState
       (mkVector3 (x (ufoPosition st))
          (y (ufoPosition st) + (ufoVelocity st + GRAVITY * delta f) * delta f)
          (z (ufoPosition st)))
       (mkVector3 (x (ufoRotation st)) (y (ufoRotation st)) 0)
       false (ufoVelocity st + GRAVITY * delta f) true (S (crashTimers st))
       (fst (movePipes (config f) (delta f) (segments st))),
     map (fun _ => onPipePass)
       (filter (fun b => b)
          (snd (movePipes (config f) (delta f) (segments st))))
     ++ [ trigger
            (mkVector3 (x (ufoPosition st))
               (y (ufoPosition st)
                + (ufoVelocity st + GRAVITY * delta f) * delta f)
               (z (ufoPosition st)))
            "#c0c0c0" 40;
          trigger
            (mkVector3 (x (ufoPosition st))
               (y (ufoPosition st)
                + (ufoVelocity st + GRAVITY * delta f) * delta f)
               (z (ufoPosition st)))
            "#FFFF00" 20;
          trigger
            (mkVector3 (x (ufoPosition st))
               (y (ufoPosition st)
                + (ufoVelocity st + GRAVITY * delta f) * delta f)
               (z (ufoPosition st)))
            "#FF4500" 30 ]).
Proof.
  intros Hg Hw Hy. unfold Scene.useFrame. rewrite Hw, Hg.
  destruct (movePipes (config f) (delta f) (segments st)) as [moved flags].
  cbn [fst snd x y z].
  assert (E : Qltb (y (ufoPosition st)
                    + (ufoVelocity st + GRAVITY * delta f) * delta f) (-5)
              || Qltb 10 (y (ufoPosition st)
                          + (ufoVelocity st + GRAVITY * delta f) * delta f)
              = true).
  { apply orb_true_iff.
    destruct Hy as [Hy | Hy]; [left | right]; now apply Qltb_lt. }
  rewrite E. reflexivity.
Qed.

(** C9.  The guard of the crash reads [isCrashing] as the last render of the
    scene saw it.  For a closure that saw it set, a crash trigger is a no-op
    and a frame updates nothing.  But between [setIsCrashing(true)] and the
    next render the closures still see it unset: a frame that runs then,
    while the crash is being processed (the cell set, one timer pending),
    updates the velocity and the height and moves the lane, and with the
    craft still out of bounds it triggers the crash again: a second timer
    is started, and the two timers call [onCrash] twice. *)
Theorem crash_reentered_before_render (f : Frame) (st : State) :
  gameState f = App.playing -> wasCrashing f = false ->
  isCrashing st = true -> crashTimers st = 1%nat ->
  (y (ufoPosition st) + (ufoVelocity st + GRAVITY * delta f) * delta f < -5
   \/ 10 < y (ufoPosition st)
             + (ufoVelocity st + GRAVITY * delta f) * delta f) ->
  (forall f', wasCrashing f' = true -> useFrame f' st = (st, []))
  /\ (forall position, handleImmediateCrash true position st = (st, []))
  /\ crashTimers (fst (useFrame f st)) = 2%nat
  /\ ufoVelocity (fst (useFrame f st)) = ufoVelocity st + GRAVITY * delta f
  /\ y (ufoPosition (fst (useFrame f st)))
     = y (ufoPosition st) + (ufoVelocity st + GRAVITY * delta f) * delta f
  /\ segments (fst (useFrame f st))
     = fst (movePipes (config f) (delta f) (segments st))
  /\ In (trigger (ufoPosition (fst (useFrame f st))) "#FF4500" 30)
       (snd (useFrame f st))
  /\ exists st2,
       run [frame f; timeout; timeout] st
       = Some (st2, snd (useFrame f st) ++ [onCrash; onCrash])
       /\ crashTimers st2 = 0%nat.
Proof.
  intros Hg Hw Hc Ht Hy.
  split; [intros f' Hf'; now apply useFrame_seen |].
  split; [intros position; reflexivity |].
  cbn [Scene.run Scene.step].
  rewrite (useFrame_unseen f st Hg Hw Hy), Ht. cbn [fst snd].
  cbn [crashTimers ufoVelocity ufoPosition segments y].
  split; [reflexivity |]. split; [reflexivity |]. split; [reflexivity |].
  split; [reflexivity |].
  split.
  { apply in_or_app. right. cbn. auto. }
  unfold crashTimeout. cbn [crashTimers].
  eexists. split; [reflexivity |]. reflexivity.
Qed.

End CrashGuard.

Lemma crash_reentered_before_render_witness :
  exists st1 calls st2,
    Scene.useFrame (fun _ _ _ => false) (fun _ _ => false) (fun _ => 0%Q)
      (Scene.mkFrame App.playing
         (LevelConfig.mkLevelConfig 3.2 4.5 10 10 "#4CAF50" 0.1)
         false 0.016 12.5)
      (Scene.mkState (Scene.mkVector3 0 (-4.9) 0) (Scene.mkVector3 0 0 0)
         true (-9) false 0 [])
    = (st1, calls)
    /\ Scene.isCrashing st1 = true /\ Scene.crashTimers st1 = 1%nat
    /\ Scene.run (fun _ _ _ => false) (fun _ _ => false) (fun _ => 0%Q)
         [ Scene.frame (Scene.mkFrame App.playing
                          (LevelConfig.mkLevelConfig 3.2 4.5 10 10 "#4CAF50" 0.1)
                          false 0.016 12.516);
           Scene.timeout; Scene.timeout ]
         st1
       = Some (st2,
               snd (Scene.useFrame (fun _ _ _ => false) (fun _ _ => false)
                      (fun _ => 0%Q)
                      (Scene.mkFrame App.playing
                         (LevelConfig.mkLevelConfig 3.2 4.5 10 10 "#4CAF50" 0.1)
                         false 0.016 12.516)
                      st1)
               ++ [Scene.onCrash; Scene.onCrash]).
Proof.
  eexists _, _. 
  destruct (crash_reentered_before_render
              (fun _ _ _ => false) (fun _ _ => false) (fun _ => 0%Q)
              (Scene.mkFrame App.playing
                 (LevelConfig.mkLevelConfig 3.2 4.5 10 10 "#4CAF50" 0.1)
                 false 0.016 12.516)
              (fst (Scene.useFrame (fun _ _ _ => false) (fun _ _ => false)
                      (fun _ => 0%Q)
                      (Scene.mkFrame App.playing
                         (LevelConfig.mkLevelConfig 3.2 4.5 10 10 "#4CAF50" 0.1)
                         false 0.016 12.5)
                      (Scene.mkState (Scene.mkVector3 0 (-4.9) 0)
                         (Scene.mkVector3 0 0 0) true (-9) false 0 []))))
    as (_ & _ & _ & _ & _ & _ & _ & st2 & R & _).
  - reflexivity.
  - reflexivity.
  - reflexivity.
  - reflexivity.
  - left. vm_compute. reflexivity.
  - exists st2. split; [reflexivity |].
    split; [reflexivity |]. split; [reflexivity |]. exact R.
Defined.

(** ** The camera rig *)

Section CameraRig.

Import Camera.
Local Open Scope R_scope.

Lemma vector3_eq (a b : Vector3) :
  x a = x b -> y a = y b -> z a = z b -> a = b.
Proof. destruct a, b; cbn; intros; subst; reflexivity. Qed.

Lemma lerp_one (this v : Vector3) : lerp this v 1 = v.
Proof. apply vector3_eq; cbn; ring. Qed.

Lemma setFromSpherical_radius (radius phi theta : R) (centre : Vector3) :
  distanceToSquared (add (setFromSpherical radius phi theta) centre) centre
    = radius * radius.
Proof.
  unfold distanceToSquared, add, setFromSpherical. cbn.
  pose proof (sin2_cos2 phi) as Hp. pose proof (sin2_cos2 theta) as Ht.
  unfold Rsqr in Hp, Ht.
  replace ((sin phi * radius * sin theta + x centre - x centre)
           * (sin phi * radius * sin theta + x centre - x centre)
           + (cos phi * radius + y centre - y centre)
             * (cos phi * radius + y centre - y centre)
           + (sin phi * radius * cos theta + z centre - z centre)
             * (sin phi * radius * cos theta + z centre - z centre))
    with (radius * radius
          * (sin phi * sin phi * (sin theta * sin theta + cos theta * cos theta)
             + cos phi * cos phi))
    by ring.
  rewrite Ht, Rmult_1_r, Hp. ring.
Qed.

Lemma useFrame_position (gameState : App.GameState) (zoomLevel : R)
    (cameraRotation : Rotation) (ufoPosition : Vector3)
    (camera : PerspectiveCamera) :
  negb (isPlaying gameState) && negb (isInitialStatic gameState)
    && negb (isPausedStatic gameState) = false ->
  position (useFrame gameState zoomLevel cameraRotation ufoPosition camera)
    = lerp (position camera)
        (targetPosition gameState zoomLevel cameraRotation ufoPosition)
        (lerpFactor gameState).
Proof. intros H. unfold useFrame. rewrite H. reflexivity. Qed.

Lemma sum_squares_zero (a b c : R) :
  a * a + b * b + c * c <= 0 -> a = 0 /\ b = 0 /\ c = 0.
Proof. intros H. repeat split; nra. Qed.

Lemma lerp_tenth (this v : Vector3) :
  x (lerp this v 0.1) - x v = 0.9 * (x this - x v)
  /\ y (lerp this v 0.1) - y v = 0.9 * (y this - y v)
  /\ z (lerp this v 0.1) - z v = 0.9 * (z this - z v)
  /\ distanceToSquared (lerp this v 0.1) v = 0.81 * distanceToSquared this v
  /\ (this <> v ->
        lerp this v 0.1 <> v
        /\ distanceToSquared (lerp this v 0.1) v < distanceToSquared this v).
Proof.
  unfold distanceToSquared. cbn.
  split; [lra |]. split; [lra |]. split; [lra |]. split; [nra |].
  intros Hne.
  assert (Hpos : 0 < (x this - x v) * (x this - x v)
                     + (y this - y v) * (y this - y v)
                     + (z this - z v) * (z this - z v)).
  { apply Rnot_le_lt. intros Hle.
    apply sum_squares_zero in Hle. destruct Hle as (Hx & Hy & Hz).
    apply Hne. apply vector3_eq; lra. }
  split.
  - intros Heq. apply Hne.
    apply (f_equal x) in Heq as Hx. apply (f_equal y) in Heq as Hy.
    apply (f_equal z) in Heq as Hz. cbn in Hx, Hy, Hz.
    apply vector3_eq; lra.
  - nra.
Qed.

(** C8.  In cameraSetup and pausedCameraSetup the interpolation factor is 1
    and one frame puts the camera exactly at the target, which lies on the
    sphere of radius [7 * zoomLevel] around the look-at point.  In playing,
    paused and ready the factor is 0.1: one frame leaves nine tenths of the
    gap to the target in every coordinate, so a camera that is not at the
    target gets strictly closer and does not reach it. *)
Theorem camera_snaps_or_eases :
  (forall gameState,
      gameState = App.cameraSetup \/ gameState = App.pausedCameraSetup ->
      lerpFactor gameState = 1
      /\ forall zoomLevel cameraRotation ufoPosition camera,
           position (useFrame gameState zoomLevel cameraRotation ufoPosition
                       camera)
             = targetPosition gameState zoomLevel cameraRotation ufoPosition
           /\ distanceToSquared
                (position (useFrame gameState zoomLevel cameraRotation
                             ufoPosition camera))
                (lookAtPosition gameState ufoPosition)
              = (7 * zoomLevel) * (7 * zoomLevel))
  /\ (forall gameState,
        gameState = App.playing \/ gameState = App.paused
        \/ gameState = App.ready ->
        lerpFactor gameState = 0.1
        /\ forall zoomLevel cameraRotation ufoPosition camera,
             let target :=
               targetPosition gameState zoomLevel cameraRotation ufoPosition in
             let camera' :=
               useFrame gameState zoomLevel cameraRotation ufoPosition camera in
             x (position camera') - x target
               = 0.9 * (x (position camera) - x target)
             /\ y (position camera') - y target
                = 0.9 * (y (position camera) - y target)
             /\ z (position camera') - z target
                = 0.9 * (z (position camera) - z target)
             /\ distanceToSquared (position camera') target
                = 0.81 * distanceToSquared (position camera) target
             /\ (position camera <> target ->
                   position camera' <> target
                   /\ distanceToSquared (position camera') target
                      < distanceToSquared (position camera) target)).
Proof.
  split.
  - intros gameState Hgs.
    assert (Hf : lerpFactor gameState = 1) by (destruct Hgs; subst; reflexivity).
    split; [exact Hf |].
    intros zoomLevel cameraRotation ufoPosition camera.
    rewrite useFrame_position by (destruct Hgs; subst; reflexivity).
    rewrite Hf, lerp_one. split; [reflexivity |].
    unfold targetPosition. apply setFromSpherical_radius.
  - intros gameState Hgs.
    assert (Hf : lerpFactor gameState = 0.1)
      by (destruct Hgs as [-> | [-> | ->]]; reflexivity).
    split; [exact Hf |].
    intros zoomLevel cameraRotation ufoPosition camera. cbv zeta.
    rewrite useFrame_position
      by (destruct Hgs as [-> | [-> | ->]]; reflexivity).
    rewrite Hf. apply lerp_tenth.
Qed.

End CameraRig.

Lemma camera_snaps_or_eases_witness :
  Camera.position
    (Camera.useFrame App.cameraSetup 1.5 (Camera.mkRotation 0.5 1.2)
       (Camera.mkVector3 0 2 0)
       (Camera.mkCamera (Camera.mkVector3 3 4 5) None 75))
  = Camera.targetPosition App.cameraSetup 1.5 (Camera.mkRotation 0.5 1.2)
      (Camera.mkVector3 0 2 0)
  /\ (Camera.x
        (Camera.position
           (Camera.useFrame App.playing 1 (Camera.mkRotation 0.5 1.2)
              (Camera.mkVector3 0 3 0)
              (Camera.mkCamera (Camera.mkVector3 3 4 5) None 75)))
      - Camera.x
          (Camera.targetPosition App.playing 1 (Camera.mkRotation 0.5 1.2)
             (Camera.mkVector3 0 3 0))
      = 0.9 * (3 - Camera.x
                     (Camera.targetPosition App.playing 1
                        (Camera.mkRotation 0.5 1.2)
                        (Camera.mkVector3 0 3 0))))%R.
Proof.
  split.
  - apply (proj2 (proj1 camera_snaps_or_eases App.cameraSetup
                    (or_introl eq_refl))
             1.5%R (Camera.mkRotation 0.5 1.2) (Camera.mkVector3 0 2 0)
             (Camera.mkCamera (Camera.mkVector3 3 4 5) None 75)).
  - apply (proj2 (proj2 camera_snaps_or_eases App.playing
                    (or_introl eq_refl))
             1%R (Camera.mkRotation 0.5 1.2) (Camera.mkVector3 0 3 0)
             (Camera.mkCamera (Camera.mkVector3 3 4 5) None 75)).
Defined.

(* ===================================================================== *)
(** * Further properties *)
(* ===================================================================== *)

(** ** The level table, all of it *)

Section LevelTableMore.

Import LevelConfig Runs.
Local Open Scope Z_scope.

Lemma getLevelConfig_nth (L : Z) :
  1 <= L ->
  getLevelConfig L = nth_error levels (Z.to_nat (Z.min (L - 1) 9))
  /\ (Z.to_nat (Z.min (L - 1) 9) <= 9)%nat.
Proof.
  intros HL. unfold getLevelConfig, index.
  change (Z.of_nat (List.length levels) - 1) with 9.
  destruct (Z.ltb_spec (Z.min (L - 1) 9) 0) as [H | H]; [lia |].
  split; [reflexivity | lia].
Qed.

Lemma getLevelConfig_below (L : Z) : L < 1 -> getLevelConfig L = None.
Proof.
  intros HL. unfold getLevelConfig, index.
  change (Z.of_nat (List.length levels) - 1) with 9.
  destruct (Z.ltb_spec (Z.min (L - 1) 9) 0) as [H | H]; [reflexivity | lia].
Qed.

Lemma getLevelConfig_some (L : Z) (c : LevelConfig) :
  getLevelConfig L = Some c -> 1 <= L.
Proof.
  intros Hc. destruct (Z_lt_le_dec L 1) as [H | H]; [| exact H].
  apply getLevelConfig_below in H. congruence.
Qed.

(** X1.  [getLevelConfig] is [undefined] exactly for the levels below 1. *)
Theorem getLevelConfig_undefined_iff (L : Z) :
  getLevelConfig L = None <-> L < 1.
Proof.
  split.
  - intros HN. destruct (Z_lt_le_dec L 1) as [H | H]; [exact H |].
    destruct (getLevelConfig_defined L H) as [c Hc]. congruence.
  - apply getLevelConfig_below.
Qed.

Lemma getLevelConfig_undefined_iff_witness :
  getLevelConfig 0 = None /\ getLevelConfig (-3) = None.
Proof.
  split.
  - apply (proj2 (getLevelConfig_undefined_iff 0)). lia.
  - apply (proj2 (getLevelConfig_undefined_iff (-3))). lia.
Defined.

Lemma levels_wellFormed (i : nat) (c : LevelConfig) :
  nth_error levels i = Some c -> wellFormedb c = true.
Proof.
  do 10 (destruct i as [| i]; [intros [= <-]; vm_compute; reflexivity |]).
  cbn. destruct i; discriminate.
Qed.

Lemma levels_harder (i j : nat) (c1 c2 : LevelConfig) :
  (i <= j)%nat -> nth_error levels i = Some c1 -> nth_error levels j = Some c2 ->
  harderb c1 c2 = true.
Proof.
  intros Hij H1 H2.
  assert (Hj : (j < 10)%nat)
    by (apply (nth_error_Some levels j); congruence).
  do 10 (destruct i as [| i]; [
    injection H1 as <-;
    do 10 (destruct j as [| j]; [
      try lia; injection H2 as <-; vm_compute; reflexivity |]); lia |]).
  lia.
Qed.

Lemma Qlt_not_le_bool (a b : Q) : negb (Qle_bool a b) = true -> (b < a)%Q.
Proof.
  rewrite negb_true_iff. intros H. apply Qnot_le_lt. intros Hle.
  apply Qle_bool_iff in Hle. congruence.
Qed.

Lemma config_wellFormed (L : Z) (c : LevelConfig) :
  getLevelConfig L = Some c ->
  (0 < gameSpeed c)%Q /\ (0 < gapHeight c)%Q /\ (gapHeight c <= 8)%Q
  /\ (0 < pipeSpacing c)%Q /\ 0 < pipeCount c
  /\ (0 <= trapChance c)%Q /\ (trapChance c <= 1)%Q.
Proof.
  intros Hc.
  pose proof (getLevelConfig_some L c Hc) as HL.
  destruct (getLevelConfig_nth L HL) as [E _]. rewrite E in Hc.
  apply levels_wellFormed in Hc. unfold wellFormedb in Hc.
  repeat (apply andb_prop in Hc; destruct Hc as [Hc ?]).
  repeat split;
    try (now apply Qlt_not_le_bool); try (now apply Qle_bool_iff).
  now apply Z.ltb_lt.
Qed.

(** X2.  Every config that [getLevelConfig] serves, for any level from 1
    on, has a positive speed, spacing and pipe count, a gap height in
    (0, 8] (so that the range of gap centres is not empty) and a trap
    chance in [0, 1]. *)
Theorem getLevelConfig_wellFormed (L : Z) (c : LevelConfig) :
  getLevelConfig L = Some c ->
  (0 < gameSpeed c)%Q /\ (0 < gapHeight c)%Q /\ (gapHeight c <= 8)%Q
  /\ (0 < pipeSpacing c)%Q /\ 0 < pipeCount c
  /\ (0 <= trapChance c)%Q /\ (trapChance c <= 1)%Q.
Proof. apply config_wellFormed. Qed.

Lemma getLevelConfig_wellFormed_witness :
  (0 < 4.4)%Q /\ (0 < 3.4)%Q /\ (3.4 <= 8)%Q /\ (0 < 8.8)%Q /\ 0 < 22
  /\ (0 <= 0.30)%Q /\ (0.30 <= 1)%Q.
Proof.
  exact (getLevelConfig_wellFormed 7
           (mkLevelConfig 4.4 3.4 8.8 22 "#F44336" 0.30) eq_refl).
Defined.

(** X3.  The table is ordered by difficulty, and [getLevelConfig] keeps the
    order for all levels, clamped ones included: a later level is at least
    as fast, its gaps and spacing are at most as large, and it has at
    least as many pipes and traps. *)
Theorem getLevelConfig_monotone (L1 L2 : Z) (c1 c2 : LevelConfig) :
  L1 <= L2 ->
  getLevelConfig L1 = Some c1 -> getLevelConfig L2 = Some c2 ->
  (gameSpeed c1 <= gameSpeed c2)%Q /\ (gapHeight c2 <= gapHeight c1)%Q
  /\ (pipeSpacing c2 <= pipeSpacing c1)%Q /\ pipeCount c1 <= pipeCount c2
  /\ (trapChance c1 <= trapChance c2)%Q.
Proof.
  intros H12 H1 H2.
  pose proof (getLevelConfig_some L1 c1 H1) as HL1.
  destruct (getLevelConfig_nth L1 HL1) as [E1 _].
  destruct (getLevelConfig_nth L2 ltac:(lia)) as [E2 _].
  rewrite E1 in H1. rewrite E2 in H2.
  assert (Hh : harderb c1 c2 = true).
  { eapply levels_harder; [| exact H1 | exact H2]. lia. }
  unfold harderb in Hh.
  repeat (apply andb_prop in Hh; destruct Hh as [Hh ?]).
  repeat split; try (now apply Qle_bool_iff).
  now apply Z.leb_le.
Qed.

Lemma getLevelConfig_monotone_witness :
  (3.4 <= 5.0)%Q /\ (3.1 <= 4.3)%Q /\ (8.2 <= 9.8)%Q /\ 12 <= 30
  /\ (0.12 <= 0.45)%Q.
Proof.
  apply (getLevelConfig_monotone 2 14
           (mkLevelConfig 3.4 4.3 9.8 12 "#8BC34A" 0.12)
           (mkLevelConfig 5.0 3.1 8.2 30 "#3F51B5" 0.45)).
  - lia.
  - reflexivity.
  - reflexivity.
Defined.

End LevelTableMore.

(** ** The session, handler after handler *)

Section SessionRuns.

Import LevelConfig App Runs.
Local Open Scope Z_scope.

Lemma handlePipePass_eq (st : State) (config : LevelConfig) :
  getLevelConfig (level st) = Some config ->
  exists log,
    fire handlePipePass st =
      Some (mkState
              (if (0 <? pipeCount config)
                  && (pipeCount config <=? pipesPassed st + 1)
               then levelComplete else gameState st)
              (score st + 1) (level st) (lives st) (starCoins st)
              (pipesPassed st + 1),
            log).
Proof.
  intros Hc. unfold fire, handlePipePass. cbn. rewrite Hc.
  destruct ((0 <? pipeCount config) && (pipeCount config <=? pipesPassed st + 1));
    cbn; now eexists.
Qed.

Lemma handleNextLevel_eq (st : State) :
  fire handleNextLevel st =
    if MAX_LEVELS <=? level st
    then Some (mkState victory (score st) (level st) (lives st) (starCoins st)
                 (pipesPassed st), [])
    else Some (mkState ready (score st) (level st + 1) (lives st + 1)
                 (starCoins st) 0, [snd_lifeUp]).
Proof.
  unfold fire, handleNextLevel.
  destruct (MAX_LEVELS <=? level st); reflexivity.
Qed.

Lemma handlePauseToggle_eq (st : State) :
  fire handlePauseToggle st =
    match gameState st with
    | playing => Some (putGameState paused st, [snd_pause])
    | paused => Some (putGameState playing st, [snd_pause])
    | _ => Some (st, [])
    end.
Proof.
  unfold fire, handlePauseToggle. destruct (gameState st); reflexivity.
Qed.

Lemma enqueue_calls (idle : bool) (st : State) (cs : list Call) :
  enqueue idle st (map call cs) = Some (map call cs).
Proof.
  revert idle. induction cs as [| c cs IH]; intros idle; [reflexivity |].
  destruct idle; [| reflexivity].
  cbn [map enqueue]. now rewrite IH.
Qed.

Lemma Action_eq_Crash (a : Action) : a = Crash \/ a <> Crash.
Proof. destruct a; auto; right; discriminate. Qed.

(** Only [handleCrash] gives a function that calls setters to the first
    setter it calls: every other handler leaves the same queue, and so the
    same session, whether or not an update is pending when it is called. *)
Lemma fireWhen_fire (idle : bool) (a : Action) (st : State) :
  a <> Crash -> fireWhen idle (handler a) st = fire (handler a) st.
Proof.
  intros Ha. destruct idle; [| apply fireWhen_busy].
  unfold fireWhen, fire.
  assert (E : enqueue true st (handler a st) = Some (handler a st));
    [| now rewrite E].
  destruct a; try congruence; cbn [handler].
  - apply (enqueue_calls true st
             [setValue Score 0; setValue Lives 5; setValue Level 1;
              setValue StarCoins 0; setValue PipesPassed 0;
              setGameState ready]).
  - apply (enqueue_calls true st [setGameState cameraSetup]).
  - apply (enqueue_calls true st
             [setValue Score 0; setValue Lives 5; setValue Level (level st);
              setValue StarCoins 0; setValue PipesPassed 0;
              setGameState ready]).
  - unfold handlePipePass. cbn -[Z.eqb Z.add].
    destruct (Z.eqb_spec (score st + 1) (score st)); [lia | reflexivity].
  - unfold handleCoinCollect. cbn -[Z.eqb Z.add].
    destruct (Z.eqb_spec (score st + 5) (score st)); [lia | reflexivity].
  - apply (enqueue_calls true st
             [playSound snd_trap; setWith Score (fun s => Z.max 0 (s - 3))]).
  - unfold handleNextLevel. destruct (MAX_LEVELS <=? level st).
    + apply (enqueue_calls true st [setGameState victory]).
    + apply (enqueue_calls true st
               [playSound snd_lifeUp; setWith Lives (fun l => l + 1);
                setWith Level (fun l => l + 1); setValue PipesPassed 0;
                setGameState ready]).
  - unfold handlePauseToggle. destruct (gameState st);
      first [ apply (enqueue_calls true st [])
            | apply (enqueue_calls true st
                       [playSound snd_pause; setGameState paused])
            | apply (enqueue_calls true st
                       [playSound snd_pause; setGameState playing]) ].
Qed.

Ltac session_inv :=
  unfold Game.sessionInv in *; rewrite ?MAX_LEVELS_eq in *; cbn in *;
  repeat match goal with
         | H : _ /\ _ |- _ => destruct H
         end;
  repeat split; intros; try discriminate; try lia; auto.

Lemma handler_keeps_sessionInv (a : Action) (st : State) :
  Game.sessionInv st ->
  exists st' log,
    fire (handler a) st = Some (st', log) /\ Game.sessionInv st'.
Proof.
  intros Inv.
  assert (HL : 1 <= level st) by (unfold Game.sessionInv in Inv; lia).
  destruct a; cbn [handler].
  - eexists _, _. split; [reflexivity |]. session_inv.
  - eexists _, _. split; [reflexivity |]. session_inv.
  - eexists _, _. split; [reflexivity |]. session_inv.
  - destruct (getLevelConfig_defined (level st) HL) as [config Hc].
    destruct (handlePipePass_eq st config Hc) as [log H].
    eexists _, _. split; [exact H |].
    destruct ((0 <? pipeCount config) && (pipeCount config <=? pipesPassed st + 1));
      session_inv.
  - destruct (handleCoinCollect_fire st) as (lv & sc & log & H & Hwrap & Hstay).
    eexists _, _. split; [exact H |].
    assert (0 <= sc < 25)
      by (unfold Game.sessionInv in Inv;
          destruct (Z_lt_le_dec (starCoins st + 1) 25) as [Hs | Hs];
          [destruct (Hstay Hs) | destruct (Hwrap Hs)]; lia).
    session_inv.
  - eexists _, _. split; [apply handleTrapHit_fire |]. session_inv.
  - destruct (Z_lt_le_dec 1 (lives st)) as [Hl | Hl].
    + eexists _, _. split; [apply handleCrash_lives_left; exact Hl |].
      session_inv.
    + destruct (Z_lt_le_dec 1 (level st)) as [Hv | Hv].
      * eexists _, _. split; [apply handleCrash_demotion; assumption |].
        session_inv.
      * eexists _, _. split; [apply handleCrash_gameOver; assumption |].
        session_inv.
  - rewrite handleNextLevel_eq.
    destruct (Z.leb_spec MAX_LEVELS (level st)) as [H | H];
      eexists _, _; (split; [reflexivity |]); session_inv.
  - rewrite handlePauseToggle_eq.
    destruct (gameState st) eqn:E;
      eexists _, _; (split; [reflexivity |]); session_inv.
Qed.



(** The session invariant does not depend on when the setters run their
    functions. *)
Lemma handler_keeps_sessionInv_when (idle : bool) (a : Action) (st : State) :
  Game.sessionInv st ->
  exists st' log,
    fireWhen idle (handler a) st = Some (st', log) /\ Game.sessionInv st'.
Proof.
  intros Inv.
  destruct (Action_eq_Crash a) as [-> | Ha].
  - destruct idle; [| rewrite fireWhen_busy;
                      exact (handler_keeps_sessionInv Crash st Inv)].
    cbn [handler].
    destruct (Z_lt_le_dec 1 (lives st)) as [Hl | Hl].
    + eexists _, _. split; [apply handleCrash_lives_left_idle; exact Hl |].
      session_inv.
    + destruct (Z_lt_le_dec 1 (level st)) as [Hv | Hv].
      * eexists _, _. split; [apply handleCrash_demotion_idle; assumption |].
        session_inv.
      * eexists _, _. split; [apply handleCrash_gameOver_idle; assumption |].
        session_inv.
  - rewrite (fireWhen_fire idle a st Ha).
    exact (handler_keeps_sessionInv a st Inv).
Qed.










End SessionRuns.

Section SessionCounters.

Import LevelConfig App Runs.
Local Open Scope Z_scope.

(** X6.  [n] bonus collects in a row from a tally within 0..24: the score
    grows by [5 * n], the tally is [(tally + n) mod 25] and the lives gained
    are [(tally + n) / 25]; no coin is lost in the wrap. *)
Theorem coins_wrap_div_mod (n : nat) (st : State) :
  0 <= starCoins st < 25 ->
  exists st',
    perform (repeat CoinCollect n) st = Some st'
    /\ score st' = score st + 5 * Z.of_nat n
    /\ starCoins st' = (starCoins st + Z.of_nat n) mod 25
    /\ lives st' = lives st + (starCoins st + Z.of_nat n) / 25
    /\ gameState st' = gameState st /\ level st' = level st
    /\ pipesPassed st' = pipesPassed st.
Proof.
  revert st. induction n as [| n IH]; intros st Hs; cbn [repeat perform].
  - exists st. rewrite Z.add_0_r, Z.mod_small, Z.div_small by lia.
    repeat split; lia.
  - cbn [handler].
    destruct (handleCoinCollect_fire st) as (lv & sc & log & H & Hwrap & Hstay).
    rewrite H. cbn [fst].
    assert (Hsc : 0 <= sc < 25
                  /\ 25 * lv + sc = 25 * lives st + starCoins st + 1).
    { destruct (Z_lt_le_dec (starCoins st + 1) 25) as [Hc | Hc];
        [destruct (Hstay Hc) | destruct (Hwrap Hc)]; lia. }
    destruct Hsc as [Hsc Hsum].
    match goal with
    | |- context [perform _ ?s] =>
        destruct (IH s Hsc) as (st' & R & H1 & H2 & H3 & H4 & H5 & H6)
    end.
    cbn [gameState score level lives starCoins pipesPassed] in *.
    exists st'. split; [exact R |].
    rewrite H1, H2, H3, H4, H5, H6.
    repeat split; try lia.
    + Z.div_mod_to_equations. lia.
    + Z.div_mod_to_equations. lia.
Qed.

Lemma coins_wrap_div_mod_witness :
  exists st',
    perform (repeat CoinCollect 60) (mkState playing 3 2 4 20 1) = Some st'
    /\ score st' = 3 + 5 * 60
    /\ starCoins st' = (20 + 60) mod 25
    /\ lives st' = 4 + (20 + 60) / 25.
Proof.
  destruct (coins_wrap_div_mod 60 (mkState playing 3 2 4 20 1)
              ltac:(cbn; lia))
    as (st' & R & H1 & H2 & H3 & _).
  exists st'. repeat split; assumption.
Defined.

(** X7.  [n] pipe passes in a row on a level of the table: the score and
    the pipes passed grow by [n], and the mode is levelComplete exactly when
    at least one pass was made and the pipes passed have reached the pipe
    count of the level; otherwise the mode is as it was. *)
Theorem passes_complete_level (n : nat) (st : State) (config : LevelConfig) :
  getLevelConfig (level st) = Some config ->
  exists st',
    perform (repeat PipePass n) st = Some st'
    /\ score st' = score st + Z.of_nat n
    /\ pipesPassed st' = pipesPassed st + Z.of_nat n
    /\ level st' = level st /\ lives st' = lives st
    /\ gameState st' =
         (if (0 <? Z.of_nat n)
             && (pipeCount config <=? pipesPassed st + Z.of_nat n)
          then levelComplete else gameState st).
Proof.
  intros Hc.
  assert (Hpos : 0 < pipeCount config)
    by (apply (config_wellFormed _ _ Hc)).
  revert st Hc. induction n as [| n IH]; intros st Hc; cbn [repeat perform].
  - exists st. cbn. repeat split; lia.
  - cbn [handler].
    destruct (handlePipePass_eq st config Hc) as [log H].
    rewrite H. cbn [fst].
    match goal with
    | |- context [perform _ ?s] =>
        destruct (IH s Hc) as (st' & R & H1 & H2 & H3 & H4 & H5)
    end.
    cbn [gameState score level lives starCoins pipesPassed] in *.
    exists st'. split; [exact R |].
    rewrite H1, H2, H3, H4, H5.
    repeat split; try lia.
    destruct (Z.ltb_spec 0 (pipeCount config)); [| lia].
    destruct (Z.ltb_spec 0 (Z.of_nat n));
      destruct (Z.ltb_spec 0 (Z.of_nat (S n))); try lia;
      repeat match goal with
             | |- context [Z.leb ?a ?b] => destruct (Z.leb_spec a b)
             end; cbn; try reflexivity; lia.
Qed.

Lemma passes_complete_level_witness :
  exists st',
    perform (repeat PipePass 10) (mkState playing 0 1 5 0 0) = Some st'
    /\ score st' = 10 /\ gameState st' = levelComplete.
Proof.
  destruct (passes_complete_level 10 (mkState playing 0 1 5 0 0)
              (mkLevelConfig 3.2 4.5 10 10 "#4CAF50" 0.1) eq_refl)
    as (st' & R & H1 & _ & _ & _ & H5).
  exists st'. repeat split; assumption.
Defined.

(** X8.  The pause toggle swaps playing and paused and touches nothing
    else, so two toggles give the session back; in every other mode it
    does nothing and plays no cue. *)
Theorem pause_toggle_twice (st : State) :
  (gameState st = playing \/ gameState st = paused ->
     perform [PauseToggle; PauseToggle] st = Some st)
  /\ (gameState st = playing ->
        fire handlePauseToggle st = Some (putGameState paused st, [snd_pause]))
  /\ (gameState st = paused ->
        fire handlePauseToggle st = Some (putGameState playing st, [snd_pause]))
  /\ (gameState st <> playing -> gameState st <> paused ->
        fire handlePauseToggle st = Some (st, [])).
Proof.
  repeat split.
  - intros Hg. destruct st as [g s l v c p]. cbn in Hg.
    destruct Hg as [-> | ->]; reflexivity.
  - intros Hg. rewrite handlePauseToggle_eq, Hg. reflexivity.
  - intros Hg. rewrite handlePauseToggle_eq, Hg. reflexivity.
  - intros H1 H2. rewrite handlePauseToggle_eq.
    destruct (gameState st); try reflexivity; congruence.
Qed.

Lemma pause_toggle_twice_witness :
  perform [PauseToggle; PauseToggle] (mkState playing 17 3 2 11 5)
  = Some (mkState playing 17 3 2 11 5).
Proof.
  apply (proj1 (pause_toggle_twice (mkState playing 17 3 2 11 5))).
  left. reflexivity.
Defined.

End SessionCounters.

(** ** The camera controls *)

Section CameraControls.

Import Controls.
Local Open Scope Q_scope.

Lemma clamp_bounds (lo hi x : Q) :
  lo <= hi -> lo <= Qmax lo (Qmin hi x) <= hi.
Proof.
  intros H. split.
  - apply Q.le_max_l.
  - apply Q.max_lub; [exact H | apply Q.le_min_l].
Qed.

Lemma ZOOM_MIN_le_MAX : ZOOM_MIN <= ZOOM_MAX.
Proof. unfold ZOOM_MIN, ZOOM_MAX. lra. Qed.

Lemma zoomUpdater_in (prev : Q) :
  ZOOM_MIN <= prev <= ZOOM_MAX ->
  ZOOM_MIN <= Qmax ZOOM_MIN (prev - ZOOM_BUTTON_STEP) <= ZOOM_MAX.
Proof.
  intros [H1 H2]. split; [apply Q.le_max_l |].
  apply Q.max_lub; [apply ZOOM_MIN_le_MAX |].
  unfold ZOOM_BUTTON_STEP. lra.
Qed.

Lemma zoomUpdater_out (prev : Q) :
  ZOOM_MIN <= prev <= ZOOM_MAX ->
  ZOOM_MIN <= Qmin ZOOM_MAX (prev + ZOOM_BUTTON_STEP) <= ZOOM_MAX.
Proof.
  intros [H1 H2]. split; [| apply Q.le_min_l].
  apply Q.min_glb; [apply ZOOM_MIN_le_MAX |].
  unfold ZOOM_BUTTON_STEP. lra.
Qed.

Lemma setZoomLevel_range (f : Q -> Q) (st : State) :
  zoomInRange st -> ZOOM_MIN <= f (zoomLevel st) <= ZOOM_MAX ->
  zoomInRange (setZoomLevel f st).
Proof.
  intros [Hz Ht] Hf. unfold zoomInRange, setZoomLevel. cbn.
  split; [exact Hf |].
  destruct (Qeq_bool (f (zoomLevel st)) (zoomLevel st)); assumption.
Qed.

Lemma setTempZoomLevel_range (f : Q -> Q) (st : State) :
  zoomInRange st -> ZOOM_MIN <= f (tempZoomLevel st) <= ZOOM_MAX ->
  zoomInRange (setTempZoomLevel f st).
Proof. intros [Hz Ht] Hf. unfold zoomInRange. cbn. auto. Qed.

Lemma gesture_zoomInRange (g : Gesture) (st : State) :
  zoomInRange st -> zoomInRange (gesture g st).
Proof.
  intros R. pose proof R as [Hz Ht].
  destruct g as [d | | | e | e | e]; cbn [gesture].
  - unfold handleWheel, handleZoom.
    destruct (isSetup (gameState st)); [| exact R].
    destruct (isPausedSetup (gameState st));
      [apply setTempZoomLevel_range | apply setZoomLevel_range];
      auto; apply clamp_bounds, ZOOM_MIN_le_MAX.
  - unfold handleZoomIn.
    destruct (isPausedSetup (gameState st));
      [apply setTempZoomLevel_range | apply setZoomLevel_range];
      auto; now apply zoomUpdater_in.
  - unfold handleZoomOut.
    destruct (isPausedSetup (gameState st));
      [apply setTempZoomLevel_range | apply setZoomLevel_range];
      auto; now apply zoomUpdater_out.
  - unfold onPointerDown.
    destruct (negb (isSetup (gameState st)) || secondaryTouch e); exact R.
  - unfold onPointerMove.
    destruct (negb (isDragging (dragState st))
              || negb (isSetup (gameState st)) || secondaryTouch e);
      [exact R |].
    destruct (isPausedSetup (gameState st)); exact R.
  - unfold onPointerUp. destruct (secondaryTouch e); exact R.
Qed.

(** X9.  A zoom within [ZOOM_MIN, ZOOM_MAX] stays there, persisted and
    temporary, through every gesture and through entering and leaving the
    camera adjustment; and a wheel event in a setup mode brings the zoom
    that the scene shows into the range whatever it was before (a value
    read from storage, say). *)
Theorem zoom_stays_in_range :
  (forall gs st, zoomInRange st -> zoomInRange (gestures gs st))
  /\ (forall st, zoomInRange st ->
        zoomInRange (handleEnterPauseCameraSetup st)
        /\ zoomInRange (handleReturnToPauseWithoutUpdate st)
        /\ zoomInRange (handleReturnToPauseWithUpdate st))
  /\ (forall deltaY st, isSetup (gameState st) = true ->
        ZOOM_MIN <= sceneZoomLevel (handleWheel deltaY st) <= ZOOM_MAX).
Proof.
  split; [| split].
  - intros gs. unfold gestures.
    induction gs as [| g gs IH]; intros st R; cbn [fold_left]; [exact R |].
    apply IH. now apply gesture_zoomInRange.
  - intros st [Hz Ht]. unfold zoomInRange. cbn.
    repeat split; try tauto.
    all: destruct (Qeq_bool (tempZoomLevel st) (zoomLevel st)); tauto.
  - intros d st Hs. unfold handleWheel, handleZoom, sceneZoomLevel. rewrite Hs.
    destruct (isPausedSetup (gameState st)) eqn:E; cbn; rewrite E;
      apply clamp_bounds, ZOOM_MIN_le_MAX.
Qed.

Lemma zoom_stays_in_range_witness :
  zoomInRange
    (gestures [zoomOut; zoomOut; wheel 5000; zoomIn; wheel (-9000); zoomIn]
       (mkState App.cameraSetup 1.0 (mkRotation 0.5 1.2) 1.0
          (mkRotation 0.5 1.2) (mkDrag false 0 0))).
Proof.
  apply (proj1 zoom_stays_in_range).
  unfold zoomInRange, ZOOM_MIN, ZOOM_MAX. cbn. lra.
Defined.

Lemma rem_bound (a b : Q) : 0 < b -> - b < rem a b < b.
Proof.
  intros Hb. unfold rem, Math_trunc.
  assert (Ha : a == a / b * b) by (field; lra).
  set (q := a / b) in *.
  destruct (Qle_bool 0 q) eqn:E.
  - pose proof (Qfloor_le q) as H1. pose proof (Qlt_floor q) as H2.
    rewrite inject_Z_plus in H2. change (inject_Z 1) with 1 in H2.
    set (t := inject_Z (Qfloor q)) in *. nra.
  - pose proof (Qle_ceiling q) as H1. pose proof (Qceiling_lt q) as H2.
    assert (H3 : inject_Z (Qceiling q - 1) == inject_Z (Qceiling q) - 1)
      by (unfold Z.sub; rewrite inject_Z_plus; reflexivity).
    rewrite H3 in H2.
    set (t := inject_Z (Qceiling q)) in *. nra.
Qed.

Lemma rotationUpdater_range (deltaX deltaY : Q) (prev : Rotation) :
  rotationInRange (rotationUpdater deltaX deltaY prev).
Proof.
  unfold rotationInRange, rotationUpdater. cbn [azimuth polar]. split.
  - apply rem_bound. unfold Math_PI. lra.
  - apply clamp_bounds. unfold Math_PI. lra.
Qed.

(** X10.  A drag in a setup mode leaves the rotation that the scene shows
    with its polar angle clamped to [0.1, PI - 0.1] and its azimuth
    strictly within one turn either way, whatever the rotation was and
    however far the pointer moved. *)
Theorem rotation_stays_in_range :
  (forall deltaX deltaY prev,
      rotationInRange (rotationUpdater deltaX deltaY prev))
  /\ (forall e st,
        isSetup (gameState st) = true ->
        isDragging (dragState st) = true -> secondaryTouch e = false ->
        rotationInRange (sceneCameraRotation (onPointerMove e st)))
  /\ (forall e st,
        isSetup (gameState st) = true -> secondaryTouch e = false ->
        isDragging (dragState (onPointerDown e st)) = true
        /\ isDragging (dragState (onPointerUp e (onPointerDown e st))) = false).
Proof.
  split; [exact rotationUpdater_range | split].
  - intros e st Hs Hd He. unfold onPointerMove, sceneCameraRotation.
    rewrite Hs, Hd, He. cbn [negb orb].
    destruct (isPausedSetup (gameState st)) eqn:E; cbn; rewrite E;
      apply rotationUpdater_range.
  - intros e st Hs He. unfold onPointerDown, onPointerUp.
    rewrite Hs, He. cbn. split; reflexivity.
Qed.

Lemma rotation_stays_in_range_witness :
  rotationInRange
    (sceneCameraRotation
       (onPointerMove (mkPointer false 900 (-700))
          (mkState App.cameraSetup 1.0 (mkRotation 0.5 1.2) 1.0
             (mkRotation 0.5 1.2) (mkDrag true 10 20)))).
Proof.
  apply (proj1 (proj2 rotation_stays_in_range)); reflexivity.
Defined.

Lemma gesture_pausedSetup (g : Gesture) (st : State) :
  gameState st = App.pausedCameraSetup ->
  gameState (gesture g st) = App.pausedCameraSetup
  /\ zoomLevel (gesture g st) = zoomLevel st
  /\ cameraRotation (gesture g st) = cameraRotation st.
Proof.
  intros Hg.
  destruct g as [d | | | e | e | e]; cbn [gesture];
    unfold handleWheel, handleZoom, handleZoomIn, handleZoomOut,
      onPointerDown, onPointerMove, onPointerUp;
    rewrite ?Hg; cbn [isSetup isPausedSetup negb orb].
  - cbn. auto.
  - cbn. auto.
  - cbn. auto.
  - destruct (secondaryTouch e); cbn; auto.
  - destruct (negb (isDragging (dragState st)) || false || secondaryTouch e);
      cbn; auto.
  - destruct (secondaryTouch e); cbn; auto.
Qed.

Lemma gestures_pausedSetup (gs : list Gesture) (st : State) :
  gameState st = App.pausedCameraSetup ->
  gameState (gestures gs st) = App.pausedCameraSetup
  /\ zoomLevel (gestures gs st) = zoomLevel st
  /\ cameraRotation (gestures gs st) = cameraRotation st.
Proof.
  unfold gestures. revert st.
  induction gs as [| g gs IH]; intros st Hg; cbn [fold_left]; [auto |].
  destruct (gesture_pausedSetup g st Hg) as (H1 & H2 & H3).
  destruct (IH _ H1) as (H4 & H5 & H6).
  rewrite H5, H6. auto.
Qed.

(** X11.  The camera adjustment while paused is a transaction.  Entering it
    shows the persisted zoom and rotation; whatever gestures follow, leaving
    without update leaves the persisted zoom and rotation as they were and
    the scene shows them again, and leaving with update persists exactly
    the zoom and rotation that the scene showed last. *)
Theorem pause_camera_adjustment (gs : list Gesture) (st : State) :
  sceneZoomLevel (handleEnterPauseCameraSetup st) = zoomLevel st
  /\ sceneCameraRotation (handleEnterPauseCameraSetup st) = cameraRotation st
  /\ (let adjusted := gestures gs (handleEnterPauseCameraSetup st) in
      let back := handleReturnToPauseWithoutUpdate adjusted in
      gameState back = App.paused
      /\ zoomLevel back = zoomLevel st
      /\ cameraRotation back = cameraRotation st
      /\ sceneZoomLevel back = zoomLevel st
      /\ sceneCameraRotation back = cameraRotation st)
  /\ (let adjusted := gestures gs (handleEnterPauseCameraSetup st) in
      let updated := handleReturnToPauseWithUpdate adjusted in
      gameState updated = App.paused
      /\ zoomLevel updated = sceneZoomLevel adjusted
      /\ cameraRotation updated = sceneCameraRotation adjusted
      /\ sceneZoomLevel updated = sceneZoomLevel adjusted
      /\ sceneCameraRotation updated = sceneCameraRotation adjusted).
Proof.
  split; [reflexivity |]. split; [reflexivity |].
  destruct (gestures_pausedSetup gs (handleEnterPauseCameraSetup st) eq_refl)
    as (Hg & Hz & Hr).
  cbv zeta. split.
  - unfold handleReturnToPauseWithoutUpdate, sceneZoomLevel,
      sceneCameraRotation. cbn. rewrite Hz, Hr. cbn. auto.
  - unfold handleReturnToPauseWithUpdate, sceneZoomLevel,
      sceneCameraRotation. cbn. rewrite Hg. cbn. auto.
Qed.

Lemma gesture_outside_setup (g : Gesture) (st : State) :
  isSetup (gameState st) = false -> byButton g = false ->
  gameState (gesture g st) = gameState st
  /\ zoomLevel (gesture g st) = zoomLevel st
  /\ cameraRotation (gesture g st) = cameraRotation st
  /\ tempZoomLevel (gesture g st) = tempZoomLevel st
  /\ tempCameraRotation (gesture g st) = tempCameraRotation st
  /\ (isDragging (dragState st) = false ->
        isDragging (dragState (gesture g st)) = false).
Proof.
  intros Hs Hb.
  destruct g as [d | | | e | e | e]; try discriminate; cbn [gesture];
    unfold handleWheel, onPointerDown, onPointerMove, onPointerUp;
    rewrite ?Hs; cbn [negb orb]; auto 10.
  - rewrite orb_true_r. cbn. auto 10.
  - destruct (secondaryTouch e); cbn; auto 10.
Qed.

(** X12.  Outside the two setup modes the wheel and the pointer change
    neither zoom nor rotation, persisted or temporary, and no drag can
    start. *)
Theorem camera_locked_outside_setup (gs : list Gesture) (st : State) :
  isSetup (gameState st) = false ->
  forallb (fun g => negb (byButton g)) gs = true ->
  gameState (gestures gs st) = gameState st
  /\ zoomLevel (gestures gs st) = zoomLevel st
  /\ cameraRotation (gestures gs st) = cameraRotation st
  /\ tempZoomLevel (gestures gs st) = tempZoomLevel st
  /\ tempCameraRotation (gestures gs st) = tempCameraRotation st
  /\ (isDragging (dragState st) = false ->
        isDragging (dragState (gestures gs st)) = false).
Proof.
  unfold gestures. revert st.
  induction gs as [| g gs IH]; intros st Hs Hb; cbn [fold_left forallb] in *;
    [auto 10 |].
  apply andb_prop in Hb. destruct Hb as [Hg Hgs].
  apply negb_true_iff in Hg.
  destruct (gesture_outside_setup g st Hs Hg) as (H1 & H2 & H3 & H4 & H5 & H6).
  assert (Hs1 : isSetup (gameState (gesture g st)) = false) by now rewrite H1.
  destruct (IH _ Hs1 Hgs) as (K1 & K2 & K3 & K4 & K5 & K6).
  rewrite K1, K2, K3, K4, K5, H1, H2, H3, H4, H5. auto 10.
Qed.

Lemma camera_locked_outside_setup_witness :
  zoomLevel
    (gestures [wheel 800; pointerDown (mkPointer false 5 5);
               pointerMove (mkPointer false 300 90);
               pointerUp (mkPointer false 300 90)]
       (mkState App.playing 1.5 (mkRotation 0.5 1.2) 1.5
          (mkRotation 0.5 1.2) (mkDrag false 0 0)))
  = 1.5.
Proof.
  apply (proj1 (proj2 (camera_locked_outside_setup
                         [wheel 800; pointerDown (mkPointer false 5 5);
                          pointerMove (mkPointer false 300 90);
                          pointerUp (mkPointer false 300 90)]
                         (mkState App.playing 1.5 (mkRotation 0.5 1.2) 1.5
                            (mkRotation 0.5 1.2) (mkDrag false 0 0))
                         eq_refl eq_refl))).
Defined.

End CameraControls.

(** ** The lane: layout, translation and pass count *)

Section LaneLayout.

Import LevelConfig PipeSystem Runs.
Local Open Scope Q_scope.

Variable config : LevelConfig.

Lemma resetFrom_nth (random : nat -> Q) (segments : list PipeSegment)
    (k i : nat) :
  nth_error (resetFrom config random k segments) i
    = option_map
        (fun s =>
           resetPipe config s
             (- (inject_Z (Z.of_nat (k + i)) * pipeSpacing config)
              - gameSpeed config * 4)
             (random (k + i)%nat))
        (nth_error segments i).
Proof.
  revert k i. induction segments as [| s rest IH]; intros k [| i]; cbn;
    try reflexivity.
  - now rewrite Nat.add_0_r.
  - rewrite IH. now rewrite Nat.add_succ_r.
Qed.

Lemma resetFrom_length (random : nat -> Q) (segments : list PipeSegment)
    (k : nat) :
  List.length (resetFrom config random k segments) = List.length segments.
Proof.
  revert k. induction segments as [| s rest IH]; intros k; cbn;
    [reflexivity | now rewrite IH].
Qed.

(** X13.  The lane has exactly [pipeCount] segments, fresh ones unpassed
    with their coin showing and a trap exactly when the draw is below the
    trap chance; a reset and a tick keep the number of segments, and a tick
    reports one flag per segment. *)
Theorem lane_has_pipeCount_segments :
  (forall random,
      (0 <= pipeCount config)%Z ->
      Z.of_nat (List.length (pipeSegments config random)) = pipeCount config)
  /\ (forall random i s,
        nth_error (pipeSegments config random) i = Some s ->
        passed s = false /\ coinVisible s = true
        /\ (isTrap s = true <-> random i < trapChance config))
  /\ (forall random segments,
        List.length (resetAll config random segments) = List.length segments)
  /\ (forall delta segments,
        List.length (fst (movePipes config delta segments))
          = List.length segments
        /\ List.length (snd (movePipes config delta segments))
           = List.length segments).
Proof.
  split; [| split; [| split]].
  - intros random H. unfold pipeSegments.
    rewrite length_map, length_seq. lia.
  - intros random i s H. unfold pipeSegments in H.
    rewrite nth_error_map in H.
    destruct (nth_error (seq 0 (Z.to_nat (pipeCount config))) i) as [j |] eqn:E;
      [| discriminate].
    injection H as <-.
    assert (j = i).
    { pose proof (nth_error_nth _ _ 0%nat E) as Hn.
      assert (Hi : (i < List.length (seq 0 (Z.to_nat (pipeCount config))))%nat)
        by (apply nth_error_Some; rewrite E; discriminate).
      rewrite length_seq in Hi. rewrite seq_nth in Hn by exact Hi. lia. }
    subst j. cbn. repeat split; try apply Qltb_lt.
  - intros random segments. apply resetFrom_length.
  - intros delta segments. unfold movePipes. cbn. now rewrite !length_map.
Qed.

Lemma resetAll_nth (random : nat -> Q) (segments : list PipeSegment)
    (i : nat) :
  nth_error (resetAll config random segments) i
    = option_map
        (fun s =>
           resetPipe config s
             (- (inject_Z (Z.of_nat i) * pipeSpacing config)
              - gameSpeed config * 4)
             (random i))
        (nth_error segments i).
Proof. unfold resetAll. now rewrite resetFrom_nth. Qed.

(** X14.  After a reset, segment [i] (taken from the old segment [i], whose
    kind it keeps) is unpassed with its coin showing, at
    [-(i * pipeSpacing) - 4 * gameSpeed]; with a positive speed and spacing
    every segment is behind the craft and each is one spacing behind the
    one before it.  With a draw in [0, 1] and a gap height of at most 8 the
    gap centre lies in [-2 + gap/2, 6 - gap/2]; the coin and the marker sit
    at the centre and the two pipes leave exactly the gap height between
    their mouths. *)
Theorem resetAll_layout (random : nat -> Q) (segments : list PipeSegment)
    (i : nat) (old : PipeSegment) :
  nth_error segments i = Some old ->
  exists s,
    nth_error (resetAll config random segments) i = Some s
    /\ passed s = false /\ coinVisible s = true /\ isTrap s = isTrap old
    /\ groupZ s
       = - (inject_Z (Z.of_nat i) * pipeSpacing config) - gameSpeed config * 4
    /\ (0 < gameSpeed config -> 0 <= pipeSpacing config -> groupZ s < 0)
    /\ (forall next,
          nth_error (resetAll config random segments) (S i) = Some next ->
          groupZ s - groupZ next == pipeSpacing config)
    /\ indicatorY s = coinY s /\ indicatorZ s = INDICATOR_AHEAD_DISTANCE
    /\ pipe0Y s - PIPE_BODY_HEIGHT / 2 - (pipe1Y s + PIPE_BODY_HEIGHT / 2)
       == gapHeight config
    /\ pipe0Y s - PIPE_BODY_HEIGHT / 2 - coinY s == gapHeight config / 2
    /\ (0 <= random i <= 1 -> gapHeight config <= 8 ->
          -2 + gapHeight config / 2 <= coinY s <= 6 - gapHeight config / 2).
Proof.
  intros Hold. rewrite resetAll_nth, Hold. cbn [option_map].
  eexists. split; [reflexivity |].
  unfold resetPipe. cbn [passed coinVisible isTrap groupZ indicatorY
                          indicatorZ pipe0Y pipe1Y coinY fst snd].
  split; [reflexivity |]. split; [reflexivity |]. split; [reflexivity |].
  split; [reflexivity |]. split.
  { intros Hv Hs.
    assert (0 <= inject_Z (Z.of_nat i))
      by (rewrite <- (Zle_Qle 0); lia).
    nra. }
  split.
  { intros next Hn. rewrite resetAll_nth in Hn.
    destruct (nth_error segments (S i)) as [o |]; [| discriminate].
    injection Hn as <-. unfold resetPipe. cbn [groupZ].
    change (Z.pos (Pos.of_succ_nat i)) with (Z.of_nat (S i)).
    rewrite Nat2Z.inj_succ. unfold Z.succ. rewrite inject_Z_plus.
    change (inject_Z 1) with 1. ring. }
  split; [reflexivity |]. split; [reflexivity |].
  unfold PIPE_BODY_HEIGHT.
  split; [field |]. split; [field |].
  intros [H0 H1] Hg.
  assert (Hh : gapHeight config / 2 <= 4)
    by (apply Qle_shift_div_r; lra).
  set (h := gapHeight config / 2) in *. set (r := random i) in *.
  split.
  - assert (0 <= r * (6 - h - (-2 + h))) by nra. lra.
  - assert (r * (6 - h - (-2 + h)) <= 6 - h - (-2 + h)) by nra.
    lra.
Qed.

Lemma moveSegment_count (delta : Q) (s : PipeSegment) :
  ((if snd (moveSegment config delta s) then 1 else 0)
   + (if passed (fst (moveSegment config delta s)) then 0 else 1)
   = (if passed s then 0 else 1))%nat.
Proof.
  unfold moveSegment.
  destruct (passed s) eqn:Hp; cbn [negb andb]; cbn; rewrite ?Hp; try reflexivity.
  destruct (Qltb 0 (groupZ s + gameSpeed config * delta)); cbn; rewrite ?Hp;
    reflexivity.
Qed.

Lemma movePipes_count (delta : Q) (segments : list PipeSegment) :
  (passesOf (snd (movePipes config delta segments))
   + unpassed (fst (movePipes config delta segments))
   = unpassed segments)%nat.
Proof.
  unfold movePipes, passesOf, unpassed. cbn [fst snd].
  induction segments as [| s rest IH]; [reflexivity |].
  cbn [map filter].
  pose proof (moveSegment_count delta s) as H.
  destruct (snd (moveSegment config delta s));
    destruct (passed (fst (moveSegment config delta s)));
    destruct (passed s); cbn [negb List.length] in *; lia.
Qed.

(** X15.  Passes are conserved: over any ticks without a reset, the calls
    of [onPipePass] and the segments still unpassed add up to the segments
    that were unpassed at the start.  So an attempt cannot count more
    passes than the lane has segments. *)
Theorem passes_conserved (deltas : list Q) (segments : list PipeSegment) :
  (totalPasses (snd (ticks config deltas segments))
   + unpassed (fst (ticks config deltas segments))
   = unpassed segments)%nat
  /\ (totalPasses (snd (ticks config deltas segments))
      <= List.length segments)%nat.
Proof.
  assert (H : (totalPasses (snd (ticks config deltas segments))
               + unpassed (fst (ticks config deltas segments))
               = unpassed segments)%nat).
  { revert segments. induction deltas as [| d ds IH]; intros segments.
    - reflexivity.
    - rewrite ticks_cons. cbn [fst snd totalPasses].
      pose proof (movePipes_count d segments) as H1.
      pose proof (IH (fst (movePipes config d segments))) as H2. lia. }
  split; [exact H |].
  assert (unpassed segments <= List.length segments)%nat
    by (unfold unpassed; apply filter_length_le).
  lia.
Qed.

Lemma moveSegment_fields (delta : Q) (s : PipeSegment) :
  groupZ (fst (moveSegment config delta s))
    = groupZ s + gameSpeed config * delta
  /\ passed (fst (moveSegment config delta s))
     = passed s || Qltb 0 (groupZ s + gameSpeed config * delta)
  /\ pipe0Y (fst (moveSegment config delta s)) = pipe0Y s
  /\ pipe1Y (fst (moveSegment config delta s)) = pipe1Y s
  /\ coinY (fst (moveSegment config delta s)) = coinY s
  /\ coinVisible (fst (moveSegment config delta s)) = coinVisible s
  /\ isTrap (fst (moveSegment config delta s)) = isTrap s.
Proof.
  unfold moveSegment.
  destruct (passed s) eqn:Hp; cbn [negb andb orb].
  - cbn. repeat split; auto.
  - destruct (Qltb 0 (groupZ s + gameSpeed config * delta)) eqn:E; cbn;
      repeat split; auto.
Qed.

Lemma elapsed_forward (deltas : list Q) :
  (forall d, In d deltas -> 0 <= gameSpeed config * d) ->
  0 <= gameSpeed config * elapsed deltas.
Proof.
  induction deltas as [| d ds IH]; intros H; cbn [elapsed fold_right].
  - lra.
  - assert (0 <= gameSpeed config * d) by (apply H; now left).
    assert (0 <= gameSpeed config * elapsed ds)
      by (apply IH; intros d' Hd'; apply H; now right).
    unfold elapsed in *. nra.
Qed.

(** X16.  Ticks translate the whole lane rigidly: after any ticks a segment
    has moved by the speed times the elapsed time, whatever the split into
    frames, and keeps its gap, its kind and its coin.  A passed segment
    stays passed; and when no tick moves the lane backwards a segment is
    marked passed exactly if it was before or it now lies beyond the
    craft. *)
Theorem lane_translates (deltas : list Q) (segments : list PipeSegment)
    (i : nat) (s : PipeSegment) :
  nth_error segments i = Some s ->
  exists s',
    nth_error (fst (ticks config deltas segments)) i = Some s'
    /\ groupZ s' == groupZ s + gameSpeed config * elapsed deltas
    /\ pipe0Y s' = pipe0Y s /\ pipe1Y s' = pipe1Y s /\ coinY s' = coinY s
    /\ coinVisible s' = coinVisible s /\ isTrap s' = isTrap s
    /\ (passed s = true -> passed s' = true)
    /\ ((forall d, In d deltas -> 0 <= gameSpeed config * d) ->
        (0 < groupZ s -> passed s = true) ->
        (passed s' = true <-> passed s = true \/ 0 < groupZ s')).
Proof.
  revert segments s.
  induction deltas as [| d ds IH]; intros segments s Hs.
  - exists s. cbn [ticks fst elapsed fold_right]. split; [exact Hs |].
    split; [ring |]. repeat split; auto.
    intros [Hq | Hq]; auto.
  - rewrite ticks_cons. cbn [fst].
    destruct (moveSegment_fields d s) as (Hz & Hp & H0 & H1 & Hc & Hv & Ht).
    set (s1 := fst (moveSegment config d s)) in *.
    assert (Hs1 : nth_error (fst (movePipes config d segments)) i = Some s1)
      by (rewrite movePipes_segment, Hs; reflexivity).
    destruct (IH _ s1 Hs1)
      as (s' & Hn & Kz & K0 & K1 & Kc & Kv & Kt & Kp & Kf).
    exists s'. split; [exact Hn |].
    split.
    { rewrite Kz, Hz. cbn [elapsed fold_right]. unfold elapsed. ring. }
    do 5 (split; [congruence |]).
    split.
    { intros Hps. apply Kp. rewrite Hp, Hps. reflexivity. }
    { intros Hfw Hcons.
      assert (Hfw' : forall d', In d' ds -> 0 <= gameSpeed config * d')
        by (intros d' Hd'; apply Hfw; now right).
      assert (Hcons1 : 0 < groupZ s1 -> passed s1 = true).
      { intros Hpos. rewrite Hp. rewrite Hz in Hpos.
        apply Qltb_lt in Hpos. rewrite Hpos. apply orb_true_r. }
      pose proof (elapsed_forward ds Hfw') as Hge.
      specialize (Kf Hfw' Hcons1).
      rewrite Kf, Hp. rewrite orb_true_iff, Qltb_lt. rewrite <- Hz.
      split.
      * intros [[H | H] | H]; auto. right. rewrite Kz. lra.
      * intros [H | H]; auto. }
Qed.

End LaneLayout.

Lemma lane_has_pipeCount_segments_witness :
  Z.of_nat (List.length
              (PipeSystem.pipeSegments
                 (LevelConfig.mkLevelConfig 3.6 4.1 9.6 14 "#CDDC39" 0.15)
                 (fun i => 0.5)))
  = 14%Z.
Proof.
  apply (proj1 (lane_has_pipeCount_segments
                  (LevelConfig.mkLevelConfig 3.6 4.1 9.6 14 "#CDDC39" 0.15))
           (fun i => 0.5%Q)).
  cbn. lia.
Defined.

Lemma resetAll_layout_witness :
  exists s,
    nth_error
      (PipeSystem.resetAll (LevelConfig.mkLevelConfig 3.2 4.5 10 10 "#4CAF50" 0.1)
         (fun _ => 0.25)
         (PipeSystem.pipeSegments
            (LevelConfig.mkLevelConfig 3.2 4.5 10 10 "#4CAF50" 0.1)
            (fun _ => 0.05))) 2
    = Some s
    /\ PipeSystem.passed s = false /\ PipeSystem.isTrap s = true.
Proof.
  destruct (resetAll_layout
              (LevelConfig.mkLevelConfig 3.2 4.5 10 10 "#4CAF50" 0.1)
              (fun _ => 0.25%Q)
              (PipeSystem.pipeSegments
                 (LevelConfig.mkLevelConfig 3.2 4.5 10 10 "#4CAF50" 0.1)
                 (fun _ => 0.05%Q))
              2%nat
              (PipeSystem.newSegment
                 (LevelConfig.mkLevelConfig 3.2 4.5 10 10 "#4CAF50" 0.1) 0.05)
              eq_refl)
    as (s & H & Hp & _ & Ht & _).
  exists s. split; [exact H |]. split; [exact Hp |]. rewrite Ht. reflexivity.
Defined.

Lemma lane_translates_witness :
  exists s',
    nth_error
      (fst (PipeSystem.ticks
              (LevelConfig.mkLevelConfig 3.2 4.5 10 10 "#4CAF50" 0.1)
              [0.016; 0.017; 0.5]
              [PipeSystem.mkSegment (-1) 14 (-10) 2 0 true 2 5 false false false]))
      0
    = Some s'
    /\ (PipeSystem.passed s' = true <-> False \/ (0 < PipeSystem.groupZ s')%Q).
Proof.
  destruct (lane_translates
              (LevelConfig.mkLevelConfig 3.2 4.5 10 10 "#4CAF50" 0.1)
              [0.016; 0.017; 0.5]%Q
              [PipeSystem.mkSegment (-1) 14 (-10) 2 0 true 2 5 false false false]
              0%nat
              (PipeSystem.mkSegment (-1) 14 (-10) 2 0 true 2 5 false false false)
              eq_refl)
    as (s' & H & _ & _ & _ & _ & _ & _ & _ & Hf).
  exists s'. split; [exact H |].
  assert (Hfw : forall d, In d [0.016; 0.017; 0.5]%Q ->
                  (0 <= 3.2 * d)%Q).
  { intros d [<- | [<- | [<- | []]]]; lra. }
  assert (Hcons : (0 < -1)%Q -> false = true) by (intros Hneg; lra).
  destruct (Hf Hfw Hcons) as [H1 H2].
  split.
  - intros Hp. destruct (H1 Hp) as [Hd | Hz]; [discriminate | now right].
  - intros [[] | Hz]. apply H2. now right.
Defined.

(** ** The collision loop and the frame of the scene *)

Section SceneFrame.

Import LevelConfig PipeSystem Scene Runs.
Local Open Scope Q_scope.

Variable intersectsBox : Vector3 -> PipeSegment -> nat -> bool.
Variable intersectsSphere : Vector3 -> PipeSegment -> bool.
Variable Math_sin : Q -> Q.

Local Abbreviation collide := (Scene.collide intersectsBox intersectsSphere).
Local Abbreviation useFrame :=
  (Scene.useFrame intersectsBox intersectsSphere Math_sin).
Local Abbreviation step := (Scene.step intersectsBox intersectsSphere Math_sin).
Local Abbreviation run := (Scene.run intersectsBox intersectsSphere Math_sin).

Lemma collide_facts (ufoPos : Vector3) (segments : list PipeSegment) :
  forall segments' calls crashed,
    collide ufoPos segments = (segments', calls, crashed) ->
    List.length segments' = List.length segments
    /\ (List.length (filter isCollect calls) + visibleCoins segments'
        = visibleCoins segments)%nat
    /\ (forall c, In c calls ->
          c <> onCrash /\ c <> onFlap /\ c <> onPipePass)
    /\ map groupZ segments' = map groupZ segments
    /\ map isTrap segments' = map isTrap segments
    /\ map passed segments' = map passed segments.
Proof.
  induction segments as [| s rest IH]; intros segments' calls crashed H.
  - cbn in H. injection H as <- <- <-. cbn. repeat split; auto;
      intros c [].
  - cbn [Scene.collide] in H.
    destruct (collide ufoPos rest) as [[rest' calls'] crashed'] eqn:R.
    destruct (IH rest' calls' crashed' eq_refl)
      as (Hlen & Hcnt & Hcalls & Hz & Ht & Hp).
    unfold visibleCoins in *.
    destruct (Qltb (Qabs (groupZ s - z ufoPos)) (UFO_RADIUS + 1.2)).
    + destruct (intersectsBox ufoPos s 0 || intersectsBox ufoPos s 1).
      * injection H as <- <- <-. repeat split; auto; intros c [].
      * destruct (coinVisible s && intersectsSphere ufoPos s) eqn:Coin.
        -- apply andb_prop in Coin. destruct Coin as [Vis Sph].
           injection H as <- <- <-.
           split; [cbn; now rewrite Hlen |].
           split.
           { rewrite filter_app, length_app. cbn [filter]. rewrite Vis.
             cbn [hideCoin coinVisible List.length].
             destruct (isTrap s); cbn; lia. }
           split.
           { intros c Hc. apply in_app_or in Hc. destruct Hc as [Hc | Hc];
               [| now apply Hcalls].
             destruct (isTrap s); cbn in Hc;
               destruct Hc as [<- | [<- | []]]; repeat split; discriminate. }
           cbn. now rewrite Hz, Ht, Hp.
        -- injection H as <- <- <-.
           split; [cbn; now rewrite Hlen |].
           split.
           { cbn [filter]. destruct (coinVisible s); cbn; lia. }
           split; [exact Hcalls |].
           cbn. now rewrite Hz, Ht, Hp.
    + injection H as <- <- <-.
      split; [cbn; now rewrite Hlen |].
      split.
      { cbn [filter]. destruct (coinVisible s); cbn; lia. }
      split; [exact Hcalls |].
      cbn. now rewrite Hz, Ht, Hp.
Qed.

Lemma collide_far (ufoPos : Vector3) (segments : list PipeSegment) :
  (forall s, In s segments ->
     ~ Qabs (groupZ s - z ufoPos) < UFO_RADIUS + 1.2) ->
  collide ufoPos segments = (segments, [], false).
Proof.
  induction segments as [| s rest IH]; intros Hfar; [reflexivity |].
  cbn [Scene.collide].
  destruct (Qltb (Qabs (groupZ s - z ufoPos)) (UFO_RADIUS + 1.2)) eqn:E.
  - apply Qltb_lt in E. exfalso. apply (Hfar s); [now left | exact E].
  - rewrite IH; [reflexivity |]. intros s' Hs'. apply Hfar. now right.
Qed.

(** X17.  The collision loop keeps the lane as it is but for the coins it
    hides: it moves no segment and changes no kind or pass flag; every
    collect call hides one coin that was showing (the collect calls and the
    coins still showing add up to the coins that showed before), so a coin
    that was collected cannot be collected again; it never calls
    [onCrash], [onFlap] or [onPipePass]; and segments outside the window of
    [UFO_RADIUS + 1.2] along the lane are not looked at at all. *)
Theorem collide_hides_what_it_collects (ufoPos : Vector3)
    (segments : list PipeSegment) :
  List.length (fst (fst (collide ufoPos segments))) = List.length segments
  /\ (List.length (filter isCollect (snd (fst (collide ufoPos segments))))
      + visibleCoins (fst (fst (collide ufoPos segments)))
      = visibleCoins segments)%nat
  /\ (forall c, In c (snd (fst (collide ufoPos segments))) ->
        c <> onCrash /\ c <> onFlap /\ c <> onPipePass)
  /\ map groupZ (fst (fst (collide ufoPos segments))) = map groupZ segments
  /\ map isTrap (fst (fst (collide ufoPos segments))) = map isTrap segments
  /\ map passed (fst (fst (collide ufoPos segments))) = map passed segments
  /\ ((forall s, In s segments ->
         ~ Qabs (groupZ s - z ufoPos) < UFO_RADIUS + 1.2) ->
      collide ufoPos segments = (segments, [], false)).
Proof.
  destruct (collide ufoPos segments) as [[segments' calls] crashed] eqn:E.
  cbn [fst snd].
  destruct (collide_facts ufoPos segments _ _ _ E)
    as (H1 & H2 & H3 & H4 & H5 & H6).
  repeat split; auto; try apply (H3 c); auto.
  rewrite <- E. apply collide_far.
Qed.

Lemma useFrame_calls (f : Frame) (st : State) (c : Callback) :
  In c (snd (useFrame f st)) -> c <> onCrash /\ c <> onFlap.
Proof.
  unfold Scene.useFrame.
  destruct (wasCrashing f) eqn:Hc; [intros [] |].
  destruct (gameState f); try (intros []).
  destruct (movePipes (config f) (delta f) (segments st)) as [moved flags].
  assert (Hpass : forall c', In c' (map (fun _ : bool => onPipePass)
                                      (filter (fun b : bool => b) flags)) ->
                    c' = onPipePass).
  { intros c' Hc'. apply in_map_iff in Hc'. destruct Hc' as (b & <- & _).
    reflexivity. }
  match goal with
  | |- context [if ?c then _ else _] => destruct c
  end.
  + unfold handleImmediateCrash. cbn [isCrashing snd].
    intros Hin. apply in_app_or in Hin. destruct Hin as [Hin | Hin].
    * rewrite (Hpass _ Hin). split; discriminate.
    * cbn in Hin. destruct Hin as [<- | [<- | [<- | []]]]; split; discriminate.
  + destruct (Scene.collide _ _ _ moved) as [[checked calls] crashed] eqn:E.
    pose proof (collide_facts _ _ _ _ _ E) as (_ & _ & Hcalls & _).
    destruct crashed.
    * unfold handleImmediateCrash. cbn [isCrashing snd].
      intros Hin. apply in_app_or in Hin. destruct Hin as [Hin | Hin];
        [rewrite (Hpass _ Hin); split; discriminate |].
      apply in_app_or in Hin. destruct Hin as [Hin | Hin];
        [destruct (Hcalls _ Hin) as (? & ? & ?); auto |].
      cbn in Hin. destruct Hin as [<- | [<- | [<- | []]]]; split; discriminate.
    * cbn [snd]. intros Hin. apply in_app_or in Hin.
      destruct Hin as [Hin | Hin];
        [rewrite (Hpass _ Hin); split; discriminate |].
      destruct (Hcalls _ Hin) as (? & ? & ?); auto.
Qed.

Lemma useFrame_rotation (f : Frame) (st : State) :
  z (ufoRotation st) = 0 -> z (ufoRotation (fst (useFrame f st))) = 0.
Proof.
  intros Hr. unfold Scene.useFrame.
  destruct (wasCrashing f) eqn:Hc; [exact Hr |].
  destruct (gameState f); try exact Hr; try reflexivity.
  destruct (movePipes (config f) (delta f) (segments st)) as [moved flags].
  match goal with
  | |- context [if ?c then _ else _] => destruct c
  end.
  - unfold handleImmediateCrash. reflexivity.
  - destruct (Scene.collide _ _ _ moved) as [[checked calls] crashed].
    destruct crashed; [unfold handleImmediateCrash |]; reflexivity.
Qed.

(** X18.  Outside playing, ready and cameraSetup a frame changes nothing
    in the scene and calls nothing, so the craft and the lane stand still
    while paused, adjusting the camera, and after the level or the game has
    ended.  In ready and cameraSetup the craft hovers: only its height
    changes, to between 1.9 and 2.1 when the sine is within -1 and 1, and
    its velocity and the lane stay as they are.  No frame in any mode calls
    [onCrash] or [onFlap].  (A frame reads [isCrashing] as the last render
    saw it.) *)
Theorem useFrame_by_mode :
  (forall f st,
      gameState f = App.paused \/ gameState f = App.pausedCameraSetup
      \/ gameState f = App.gameOver \/ gameState f = App.levelComplete
      \/ gameState f = App.victory ->
      useFrame f st = (st, []))
  /\ (forall f st,
        gameState f = App.ready \/ gameState f = App.cameraSetup ->
        wasCrashing f = false ->
        snd (useFrame f st) = []
        /\ ufoVelocity (fst (useFrame f st)) = ufoVelocity st
        /\ segments (fst (useFrame f st)) = segments st
        /\ x (ufoPosition (fst (useFrame f st))) = x (ufoPosition st)
        /\ z (ufoPosition (fst (useFrame f st))) = z (ufoPosition st)
        /\ z (ufoRotation (fst (useFrame f st))) = 0
        /\ y (ufoPosition (fst (useFrame f st)))
           = 2 + Math_sin (elapsedTime f * 2) * 0.1
        /\ (-1 <= Math_sin (elapsedTime f * 2) <= 1 ->
            1.9 <= y (ufoPosition (fst (useFrame f st))) <= 2.1))
  /\ (forall f st c,
        In c (snd (useFrame f st)) -> c <> onCrash /\ c <> onFlap).
Proof.
  split; [| split].
  - intros f st Hg. unfold Scene.useFrame.
    destruct (wasCrashing f); [reflexivity |].
    destruct Hg as [-> | [-> | [-> | [-> | ->]]]]; reflexivity.
  - intros f st Hg Hc. unfold Scene.useFrame. rewrite Hc.
    destruct Hg as [-> | ->]; cbn; repeat split; auto; lra.
  - intros f st c. apply useFrame_calls.
Qed.

(** X19.  A frame while playing, made by a render that saw no crash in
    progress, integrates gravity first and the height second, with the new
    velocity, and never moves the craft sideways or rolls it.  A height
    below -5 or above 10 starts a crash at once (craft hidden, one timer
    started) before any pipe or coin is tested, so that frame collects
    nothing.  The frame either starts a crash, with one more timer and the
    craft hidden, or starts none and leaves the height within [-5, 10]; with
    no crash being processed at all, it ends crashing exactly in the first
    case. *)
Theorem useFrame_playing (f : Frame) (st : State) :
  gameState f = App.playing -> wasCrashing f = false ->
  ufoVelocity (fst (useFrame f st)) = ufoVelocity st + GRAVITY * delta f
  /\ ufoPosition (fst (useFrame f st))
     = mkVector3 (x (ufoPosition st))
         (y (ufoPosition st) + (ufoVelocity st + GRAVITY * delta f) * delta f)
         (z (ufoPosition st))
  /\ z (ufoRotation (fst (useFrame f st))) = 0
  /\ (y (ufoPosition st) + (ufoVelocity st + GRAVITY * delta f) * delta f < -5
      \/ 10 < y (ufoPosition st)
                + (ufoVelocity st + GRAVITY * delta f) * delta f ->
      isCrashing (fst (useFrame f st)) = true
      /\ segments (fst (useFrame f st))
         = fst (movePipes (config f) (delta f) (segments st))
      /\ forall c, In c (snd (useFrame f st)) -> isCollect c = false)
  /\ (isCrashing (fst (useFrame f st)) = true
      /\ ufoVisible (fst (useFrame f st)) = false
      /\ crashTimers (fst (useFrame f st)) = S (crashTimers st)
      \/ isCrashing (fst (useFrame f st)) = isCrashing st
         /\ ufoVisible (fst (useFrame f st)) = ufoVisible st
         /\ crashTimers (fst (useFrame f st)) = crashTimers st
         /\ -5 <= y (ufoPosition (fst (useFrame f st))) <= 10)
  /\ (isCrashing st = false ->
      isCrashing (fst (useFrame f st)) = true ->
      ufoVisible (fst (useFrame f st)) = false
      /\ crashTimers (fst (useFrame f st)) = S (crashTimers st))
  /\ (isCrashing st = false ->
      isCrashing (fst (useFrame f st)) = false ->
      -5 <= y (ufoPosition (fst (useFrame f st))) <= 10
      /\ ufoVisible (fst (useFrame f st)) = ufoVisible st
      /\ crashTimers (fst (useFrame f st)) = crashTimers st).
Proof.
  intros Hg Hc. unfold Scene.useFrame. rewrite Hc, Hg.
  destruct (movePipes (config f) (delta f) (segments st)) as [moved flags].
  cbn [fst x y z].
  set (height := y (ufoPosition st)
                 + (ufoVelocity st + GRAVITY * delta f) * delta f).
  destruct (Qltb height (-5)) eqn:Low; [| destruct (Qltb 10 height) eqn:High];
    cbn [orb].
  - unfold handleImmediateCrash. cbn.
    do 3 (split; [reflexivity |]).
    split.
    { intros _. do 2 (split; [reflexivity |]).
      intros c Hin. apply in_app_or in Hin. destruct Hin as [Hin | Hin].
      + apply in_map_iff in Hin. destruct Hin as (b & <- & _). reflexivity.
      + cbn in Hin. destruct Hin as [<- | [<- | [<- | []]]]; reflexivity. }
    split; [left; auto |].
    split; [auto | intros; discriminate].
  - unfold handleImmediateCrash. cbn.
    do 3 (split; [reflexivity |]).
    split.
    { intros _. do 2 (split; [reflexivity |]).
      intros c Hin. apply in_app_or in Hin. destruct Hin as [Hin | Hin].
      + apply in_map_iff in Hin. destruct Hin as (b & <- & _). reflexivity.
      + cbn in Hin. destruct Hin as [<- | [<- | [<- | []]]]; reflexivity. }
    split; [left; auto |].
    split; [auto | intros; discriminate].
  - assert (Hin : -5 <= height <= 10).
    { split; apply Qnot_lt_le; intros H; apply Qltb_lt in H; congruence. }
    destruct (Scene.collide _ _ _ moved) as [[checked calls] crashed].
    assert (Hout : height < -5 \/ 10 < height -> False)
      by (intros [H | H]; lra).
    destruct crashed.
    + unfold handleImmediateCrash. cbn.
      do 3 (split; [reflexivity |]).
      split; [intros H; destruct (Hout H) |].
      split; [left; auto |].
      split; [auto | intros; discriminate].
    + cbn.
      do 3 (split; [reflexivity |]).
      split; [intros H; destruct (Hout H) |].
      split; [right; auto |].
      split; [intros H1 H2; congruence | auto].
Qed.

Lemma movePipes_visible (config : LevelConfig) (delta : Q)
    (segments : list PipeSegment) :
  visibleCoins (fst (movePipes config delta segments)) = visibleCoins segments.
Proof.
  unfold movePipes, visibleCoins. cbn [fst].
  induction segments as [| s rest IH]; [reflexivity |].
  cbn [map filter].
  destruct (moveSegment_fields config delta s) as (_ & _ & _ & _ & _ & Hv & _).
  rewrite Hv. destruct (coinVisible s); cbn; now rewrite IH.
Qed.

Lemma useFrame_run_facts (f : Frame) (st : State) :
  x (ufoPosition (fst (useFrame f st))) = x (ufoPosition st)
  /\ z (ufoPosition (fst (useFrame f st))) = z (ufoPosition st)
  /\ (List.length (filter isCollect (snd (useFrame f st)))
      + visibleCoins (segments (fst (useFrame f st)))
      = visibleCoins (segments st))%nat.
Proof.
  unfold Scene.useFrame.
  destruct (wasCrashing f) eqn:Hc; [cbn; auto |].
  destruct (gameState f); try (cbn; auto; fail).
  pose proof (movePipes_visible (config f) (delta f) (segments st)) as Hv.
  destruct (movePipes (config f) (delta f) (segments st)) as [moved flags].
  cbn [fst] in Hv.
  assert (Hpass : filter isCollect
                    (map (fun _ : bool => onPipePass)
                       (filter (fun b : bool => b) flags)) = []).
  { induction (filter (fun b : bool => b) flags) as [| b l IH];
      [reflexivity | exact IH]. }
  match goal with
  | |- context [if ?c then _ else _] => destruct c
  end.
  - unfold handleImmediateCrash. cbn [isCrashing fst snd]. cbn [ufoPosition x z segments].
    rewrite filter_app, Hpass. cbn. auto.
  - destruct (Scene.collide _ _ _ moved) as [[checked calls] crashed] eqn:E.
    pose proof (collide_facts _ _ _ _ _ E) as (_ & Hcnt & _).
    destruct crashed.
    + unfold handleImmediateCrash. cbn [isCrashing fst snd]. cbn [ufoPosition x z segments].
      rewrite !filter_app, Hpass, !length_app. cbn. repeat split; lia.
    + cbn [fst snd ufoPosition x z segments].
      rewrite filter_app, Hpass. cbn. repeat split; lia.
Qed.

(** X20.  Through any run of frames, taps, crash reports and timeouts the
    craft stays on its vertical line ([x] and [z] never change), and coins
    are conserved: the collect calls made and the coins still showing add
    up to the coins that showed at the start, so between two resets of the
    lane no coin is collected twice. *)
Theorem run_keeps_axis_and_coins (es : list Event) (st st' : State)
    (calls : list Callback) :
  run es st = Some (st', calls) ->
  x (ufoPosition st') = x (ufoPosition st)
  /\ z (ufoPosition st') = z (ufoPosition st)
  /\ (List.length (filter isCollect calls) + visibleCoins (segments st')
      = visibleCoins (segments st))%nat.
Proof.
  revert st calls. induction es as [| e es IH]; intros st calls;
    cbn [Scene.run].
  - intros [= <- <-]. cbn. auto.
  - destruct (step e st) as [[st1 calls1] |] eqn:S1; [| discriminate].
    destruct (run es st1) as [[st2 calls2] |] eqn:R; [| discriminate].
    intros [= <- <-].
    destruct (IH st1 calls2 R) as (Hx & Hz & Hn).
    assert (H1 : x (ufoPosition st1) = x (ufoPosition st)
                 /\ z (ufoPosition st1) = z (ufoPosition st)
                 /\ (List.length (filter isCollect calls1)
                     + visibleCoins (segments st1)
                     = visibleCoins (segments st))%nat).
    { destruct e as [f | | seen position |]; cbn [Scene.step] in S1.
      - injection S1 as S1. pose proof (useFrame_run_facts f st) as H.
        rewrite S1 in H. exact H.
      - injection S1 as <- <-. cbn. auto.
      - injection S1 as S1. unfold handleImmediateCrash in S1.
        destruct seen; injection S1 as <- <-; cbn; auto.
      - unfold crashTimeout in S1.
        destruct (crashTimers st); [discriminate |].
        injection S1 as <- <-. cbn. auto. }
    destruct H1 as (Hx1 & Hz1 & Hn1).
    rewrite filter_app, length_app. repeat split; try congruence. lia.
Qed.

End SceneFrame.

Lemma collide_hides_what_it_collects_witness :
  Scene.collide (fun _ _ _ => true) (fun _ _ => true)
    (Scene.mkVector3 0 2 0)
    [PipeSystem.mkSegment (-50) 14 (-10) 2 0 true 2 5 false false false]
  = ([PipeSystem.mkSegment (-50) 14 (-10) 2 0 true 2 5 false false false],
     [], false).
Proof.
  apply (proj2 (proj2 (proj2 (proj2 (proj2 (proj2
           (collide_hides_what_it_collects (fun _ _ _ => true)
              (fun _ _ => true) (Scene.mkVector3 0 2 0)
              [PipeSystem.mkSegment (-50) 14 (-10) 2 0 true 2 5 false false
                 false]))))))).
  intros s [<- | []]. vm_compute. discriminate.
Defined.

Lemma useFrame_by_mode_witness :
  Scene.useFrame (fun _ _ _ => false) (fun _ _ => false) (fun _ => 0%Q)
    (Scene.mkFrame App.paused
       (LevelConfig.mkLevelConfig 3.2 4.5 10 10 "#4CAF50" 0.1) false 0.016
       3.5)
    (Scene.mkState (Scene.mkVector3 0 4.5 0) (Scene.mkVector3 0 0 0) true
       (-2) false 0
       [PipeSystem.mkSegment (-1) 14 (-10) 2 0 true 2 5 false false false])
  = (Scene.mkState (Scene.mkVector3 0 4.5 0) (Scene.mkVector3 0 0 0) true
       (-2) false 0
       [PipeSystem.mkSegment (-1) 14 (-10) 2 0 true 2 5 false false false],
     []).
Proof.
  apply (proj1 (useFrame_by_mode (fun _ _ _ => false) (fun _ _ => false)
                  (fun _ => 0%Q))).
  left. reflexivity.
Defined.

Lemma useFrame_playing_witness :
  Scene.ufoVelocity
    (fst (Scene.useFrame (fun _ _ _ => false) (fun _ _ => false)
            (fun _ => 0%Q)
            (Scene.mkFrame App.playing
               (LevelConfig.mkLevelConfig 3.2 4.5 10 10 "#4CAF50" 0.1)
               false 0.016 3.5)
            (Scene.mkState (Scene.mkVector3 0 2 0) (Scene.mkVector3 0 0 0)
               true 7 false 0 [])))
  = (7 + Scene.GRAVITY * 0.016)%Q.
Proof.
  apply (proj1 (useFrame_playing (fun _ _ _ => false) (fun _ _ => false)
                  (fun _ => 0%Q)
                  (Scene.mkFrame App.playing
                     (LevelConfig.mkLevelConfig 3.2 4.5 10 10 "#4CAF50" 0.1)
                     false 0.016 3.5)
                  (Scene.mkState (Scene.mkVector3 0 2 0)
                     (Scene.mkVector3 0 0 0) true 7 false 0 [])
                  eq_refl eq_refl)).
Defined.

Lemma run_keeps_axis_and_coins_witness :
  exists st' calls,
    Scene.run (fun _ _ _ => false) (fun _ _ => true) (fun _ => 0%Q)
      [ Scene.tap;
        Scene.frame (Scene.mkFrame App.playing
                       (LevelConfig.mkLevelConfig 3.2 4.5 10 10 "#4CAF50" 0.1)
                       false 0.016 3.5);
        Scene.frame (Scene.mkFrame App.playing
                       (LevelConfig.mkLevelConfig 3.2 4.5 10 10 "#4CAF50" 0.1)
                       false 0.016 3.516) ]
      (Scene.mkState (Scene.mkVector3 0 2 0) (Scene.mkVector3 0 0 0) true 0
         false 0
         [PipeSystem.mkSegment (-1) 14 (-10) 2 0 true 2 5 false false false;
          PipeSystem.mkSegment (-11) 14 (-10) 2 0 true 2 5 true false false])
    = Some (st', calls)
    /\ (List.length (filter Runs.isCollect calls)
        + Runs.visibleCoins (Scene.segments st') = 2)%nat
    /\ In Scene.onCoinCollect calls.
Proof.
  destruct (Scene.run (fun _ _ _ => false) (fun _ _ => true) (fun _ => 0%Q)
      [ Scene.tap;
        Scene.frame (Scene.mkFrame App.playing
                       (LevelConfig.mkLevelConfig 3.2 4.5 10 10 "#4CAF50" 0.1)
                       false 0.016 3.5);
        Scene.frame (Scene.mkFrame App.playing
                       (LevelConfig.mkLevelConfig 3.2 4.5 10 10 "#4CAF50" 0.1)
                       false 0.016 3.516) ]
      (Scene.mkState (Scene.mkVector3 0 2 0) (Scene.mkVector3 0 0 0) true 0
         false 0
         [PipeSystem.mkSegment (-1) 14 (-10) 2 0 true 2 5 false false false;
          PipeSystem.mkSegment (-11) 14 (-10) 2 0 true 2 5 true false false]))
    as [[st' calls] |] eqn:E.
  - exists st', calls. split; [reflexivity |]. split.
    + apply (proj2 (proj2
        (run_keeps_axis_and_coins (fun _ _ _ => false) (fun _ _ => true)
           (fun _ => 0%Q) _ _ _ _ E))).
    + vm_compute in E. injection E as _ <-. cbn. auto 10.
  - vm_compute in E. discriminate.
Defined.

(** ** The camera, frame after frame *)

Section CameraFrames.

Import Camera Runs.
Local Open Scope R_scope.

Lemma lerp_same (v : Vector3) (alpha : R) : lerp v v alpha = v.
Proof. apply vector3_eq; cbn; ring. Qed.

Lemma updates_camera (gameState : App.GameState) :
  gameState <> App.gameOver -> gameState <> App.levelComplete ->
  gameState <> App.victory ->
  negb (isPlaying gameState) && negb (isInitialStatic gameState)
    && negb (isPausedStatic gameState) = false.
Proof. destruct gameState; intros; try reflexivity; congruence. Qed.

(** X21.  In ready and cameraSetup the effect puts the camera at the
    target without interpolation, and from there the frames of that mode
    are a fixed point: however many follow, and wherever the craft is, the
    camera stays at the target, looking at the start position. *)
Theorem cameraEffect_then_frames (n : nat) (gameState : App.GameState)
    (zoomLevel : R) (cameraRotation : Rotation) (ufoPosition : Vector3)
    (camera : PerspectiveCamera) :
  gameState = App.ready \/ gameState = App.cameraSetup ->
  position (cameraEffect gameState zoomLevel cameraRotation camera)
    = targetPosition gameState zoomLevel cameraRotation ufoPosition
  /\ position
       (cameraFrames n gameState zoomLevel cameraRotation ufoPosition
          (cameraEffect gameState zoomLevel cameraRotation camera))
     = targetPosition gameState zoomLevel cameraRotation ufoPosition
  /\ lookAtTarget
       (cameraFrames n gameState zoomLevel cameraRotation ufoPosition
          (cameraEffect gameState zoomLevel cameraRotation camera))
     = Some (mkVector3 0 2 0).
Proof.
  intros Hg.
  assert (Hinit : isInitialStatic gameState = true)
    by (destruct Hg; subst; reflexivity).
  assert (Htarget : targetPosition gameState zoomLevel cameraRotation ufoPosition
                    = add (setFromSpherical (7 * zoomLevel)
                             (polar cameraRotation) (azimuth cameraRotation))
                          (mkVector3 0 2 0)).
  { unfold targetPosition, lookAtPosition. now rewrite Hinit. }
  split.
  { unfold cameraEffect. rewrite Hinit, Htarget. reflexivity. }
  assert (Hfix : forall cam,
             position cam
               = targetPosition gameState zoomLevel cameraRotation ufoPosition ->
             lookAtTarget cam = Some (mkVector3 0 2 0) ->
             position (useFrame gameState zoomLevel cameraRotation ufoPosition cam)
               = targetPosition gameState zoomLevel cameraRotation ufoPosition
             /\ lookAtTarget
                  (useFrame gameState zoomLevel cameraRotation ufoPosition cam)
                = Some (mkVector3 0 2 0)).
  { intros cam Hp Hl. unfold useFrame.
    rewrite updates_camera by (destruct Hg; subst; discriminate).
    cbn [position lookAtTarget]. rewrite Hp, Hl, lerp_same.
    unfold lookAtPosition. rewrite Hinit, lerp_same. auto. }
  assert (Hall : forall cam,
             position cam
               = targetPosition gameState zoomLevel cameraRotation ufoPosition ->
             lookAtTarget cam = Some (mkVector3 0 2 0) ->
             position
               (cameraFrames n gameState zoomLevel cameraRotation ufoPosition cam)
               = targetPosition gameState zoomLevel cameraRotation ufoPosition
             /\ lookAtTarget
                  (cameraFrames n gameState zoomLevel cameraRotation ufoPosition
                     cam)
                = Some (mkVector3 0 2 0)).
  { induction n as [| n IH]; intros cam Hp Hl; cbn [cameraFrames]; [auto |].
    destruct (Hfix cam Hp Hl) as [Hp1 Hl1]. now apply IH. }
  apply Hall.
  - unfold cameraEffect. rewrite Hinit, Htarget. reflexivity.
  - unfold cameraEffect. rewrite Hinit. reflexivity.
Qed.

(** X22.  With the props and the craft held fixed, [n] frames in playing,
    paused or ready leave [0.9 ^ n] of the gap to the target in every
    coordinate, so the camera closes in geometrically and never overshoots;
    in cameraSetup and pausedCameraSetup any number of frames from one on
    leaves it exactly at the target. *)
Theorem camera_converges (n : nat) (gameState : App.GameState)
    (zoomLevel : R) (cameraRotation : Rotation) (ufoPosition : Vector3)
    (camera : PerspectiveCamera) :
  (gameState = App.playing \/ gameState = App.paused
   \/ gameState = App.ready ->
   x (position (cameraFrames n gameState zoomLevel cameraRotation ufoPosition
                  camera))
     - x (targetPosition gameState zoomLevel cameraRotation ufoPosition)
     = 0.9 ^ n * (x (position camera)
                  - x (targetPosition gameState zoomLevel cameraRotation
                         ufoPosition))
   /\ y (position (cameraFrames n gameState zoomLevel cameraRotation
                     ufoPosition camera))
      - y (targetPosition gameState zoomLevel cameraRotation ufoPosition)
      = 0.9 ^ n * (y (position camera)
                   - y (targetPosition gameState zoomLevel cameraRotation
                          ufoPosition))
   /\ z (position (cameraFrames n gameState zoomLevel cameraRotation
                     ufoPosition camera))
      - z (targetPosition gameState zoomLevel cameraRotation ufoPosition)
      = 0.9 ^ n * (z (position camera)
                   - z (targetPosition gameState zoomLevel cameraRotation
                          ufoPosition)))
  /\ (gameState = App.cameraSetup \/ gameState = App.pausedCameraSetup ->
      (1 <= n)%nat ->
      position (cameraFrames n gameState zoomLevel cameraRotation ufoPosition
                  camera)
        = targetPosition gameState zoomLevel cameraRotation ufoPosition).
Proof.
  split.
  - intros Hg.
    assert (Hf : lerpFactor gameState = 0.1)
      by (destruct Hg as [-> | [-> | ->]]; reflexivity).
    assert (Hu : negb (isPlaying gameState) && negb (isInitialStatic gameState)
                 && negb (isPausedStatic gameState) = false)
      by (destruct Hg as [-> | [-> | ->]]; reflexivity).
    revert camera. induction n as [| n IH]; intros camera.
    + cbn [cameraFrames pow]. repeat split; ring.
    + cbn [cameraFrames].
      destruct (IH (useFrame gameState zoomLevel cameraRotation ufoPosition
                      camera)) as (Hx & Hy & Hz).
      rewrite Hx, Hy, Hz, useFrame_position, Hf by exact Hu.
      destruct (lerp_tenth (position camera)
                  (targetPosition gameState zoomLevel cameraRotation
                     ufoPosition)) as (Lx & Ly & Lz & _).
      rewrite Lx, Ly, Lz. cbn [pow]. repeat split; ring.
  - intros Hg Hn.
    assert (Hf : lerpFactor gameState = 1)
      by (destruct Hg as [-> | ->]; reflexivity).
    assert (Hu : negb (isPlaying gameState) && negb (isInitialStatic gameState)
                 && negb (isPausedStatic gameState) = false)
      by (destruct Hg as [-> | ->]; reflexivity).
    assert (Hstay : forall m cam,
               position cam
                 = targetPosition gameState zoomLevel cameraRotation ufoPosition ->
               position (cameraFrames m gameState zoomLevel cameraRotation
                           ufoPosition cam)
                 = targetPosition gameState zoomLevel cameraRotation ufoPosition).
    { induction m as [| m IH]; intros cam Hp; cbn [cameraFrames]; [exact Hp |].
      apply IH. rewrite useFrame_position, Hf, lerp_one by exact Hu.
      reflexivity. }
    destruct n as [| n]; [lia |]. cbn [cameraFrames]. apply Hstay.
    rewrite useFrame_position, Hf, lerp_one by exact Hu. reflexivity.
Qed.

End CameraFrames.

Lemma cameraEffect_then_frames_witness :
  Camera.position
    (Runs.cameraFrames 5 App.ready 1 (Camera.mkRotation 0.5 1.2)
       (Camera.mkVector3 0 2.07 0)
       (Camera.cameraEffect App.ready 1 (Camera.mkRotation 0.5 1.2)
          (Camera.mkCamera (Camera.mkVector3 9 9 9) None 75)))
  = Camera.targetPosition App.ready 1 (Camera.mkRotation 0.5 1.2)
      (Camera.mkVector3 0 2.07 0).
Proof.
  apply (proj1 (proj2 (cameraEffect_then_frames 5 App.ready 1%R
                         (Camera.mkRotation 0.5 1.2)
                         (Camera.mkVector3 0 2.07 0)
                         (Camera.mkCamera (Camera.mkVector3 9 9 9) None 75)
                         (or_introl eq_refl)))).
Defined.

Lemma camera_converges_witness :
  (Camera.y
     (Camera.position
        (Runs.cameraFrames 3 App.playing 1 (Camera.mkRotation 0.5 1.2)
           (Camera.mkVector3 0 3 0)
           (Camera.mkCamera (Camera.mkVector3 3 4 5) None 75)))
   - Camera.y
       (Camera.targetPosition App.playing 1 (Camera.mkRotation 0.5 1.2)
          (Camera.mkVector3 0 3 0))
   = 0.9 ^ 3
     * (4 - Camera.y
              (Camera.targetPosition App.playing 1 (Camera.mkRotation 0.5 1.2)
                 (Camera.mkVector3 0 3 0))))%R.
Proof.
  apply (proj1 (camera_converges 3 App.playing 1%R (Camera.mkRotation 0.5 1.2)
                  (Camera.mkVector3 0 3 0)
                  (Camera.mkCamera (Camera.mkVector3 3 4 5) None 75))
           (or_introl eq_refl)).
Defined.

(** ** The background music *)

Section BackgroundMusic.

Import Music Runs.

Lemma melodyNote_rem (n : Z) :
  (0 <= n)%Z ->
  melodyNote n = melodyNote (Z.rem n 14) /\ (0 <= Z.rem n 14 < 14)%Z.
Proof.
  intros Hn. split; [| apply Z.rem_bound_pos; lia].
  unfold melodyNote.
  change (Z.of_nat (List.length MELODY_SEQUENCE) * 2 - 2)%Z with 14%Z.
  cbn [Z.eqb]. rewrite Z.rem_rem by lia. reflexivity.
Qed.

Lemma melodyNote_table (r : Z) :
  (0 <= r < 14)%Z ->
  exists s, melodyNote r = Some s /\ In s MELODY_SEQUENCE
            /\ melodyNote (14 - r) = Some s.
Proof.
  intros Hr.
  assert (H : (r = 0 \/ r = 1 \/ r = 2 \/ r = 3 \/ r = 4 \/ r = 5 \/ r = 6
               \/ r = 7 \/ r = 8 \/ r = 9 \/ r = 10 \/ r = 11 \/ r = 12
               \/ r = 13)%Z) by lia.
  repeat (destruct H as [-> | H];
          [eexists; split; [reflexivity | split; [cbn; tauto | reflexivity]] |]).
  subst r. eexists; split; [reflexivity | split; [cbn; tauto | reflexivity]].
Qed.

(** X23.  The melody never runs off its sequence: for every value that the
    note counter takes, the note is defined and is one of the eight of
    [MELODY_SEQUENCE] (so between -5 and 12 semitones); the line repeats
    every 14 notes and is a palindrome within the period, up the sequence
    and back down without repeating the ends. *)
Theorem melody_ping_pong (n : Z) :
  (0 <= n)%Z ->
  (exists s, melodyNote n = Some s /\ In s MELODY_SEQUENCE
             /\ (-5 <= s <= 12)%Z)
  /\ melodyNote (n + 14) = melodyNote n
  /\ (n <= 14 -> melodyNote (14 - n) = melodyNote n)%Z.
Proof.
  intros Hn. destruct (melodyNote_rem n Hn) as [Hr Hb].
  destruct (melodyNote_table _ Hb) as (s & Hs & Hin & Hsym).
  split; [| split].
  - exists s. rewrite Hr. split; [exact Hs |]. split; [exact Hin |].
    cbn in Hin. lia.
  - destruct (melodyNote_rem (n + 14) ltac:(lia)) as [Hr' _].
    rewrite Hr', Hr. f_equal.
    rewrite !Z.rem_mod_nonneg by lia.
    replace (n + 14)%Z with (n + 1 * 14)%Z by lia.
    apply Z.mod_add. lia.
  - intros Hle.
    destruct (Z.eq_dec n 14) as [-> | Hne]; [reflexivity |].
    rewrite Z.rem_small in Hr, Hs, Hsym by lia.
    now rewrite Hsym, Hs.
Qed.

Lemma melody_ping_pong_witness :
  melodyNote (23 + 14) = melodyNote 23.
Proof.
  apply (proj1 (proj2 (melody_ping_pong 23 ltac:(lia)))).
Defined.

Local Open Scope R_scope.

Lemma semitones_add (baseFreq a b : R) :
  semitonesToFrequency (semitonesToFrequency baseFreq a) b
  = semitonesToFrequency baseFreq (a + b).
Proof.
  unfold semitonesToFrequency.
  replace ((a + b) / 12) with (a / 12 + b / 12) by lra.
  rewrite Rpower_plus. ring.
Qed.

(** X24.  Transposing composes: a shift by [a] semitones and then by [b] is
    a shift by [a + b], twelve semitones double the frequency, and a shift
    up raises a positive frequency.  So the melody of level [L] at note [s]
    sounds at [C4 * 2 ^ ((L - 1 + s) / 12)], each level one semitone above
    the one before, the harmonies sound from levels 3 and 5 on, a major
    third and a fifth above the melody. *)
Theorem music_transposes :
  (forall baseFreq a b,
      semitonesToFrequency (semitonesToFrequency baseFreq a) b
      = semitonesToFrequency baseFreq (a + b))
  /\ (forall baseFreq s,
        semitonesToFrequency baseFreq (s + 12)
        = 2 * semitonesToFrequency baseFreq s)
  /\ (forall baseFreq a b,
        0 < baseFreq -> a < b ->
        semitonesToFrequency baseFreq a < semitonesToFrequency baseFreq b)
  /\ (forall level noteIndex chord,
        scheduleNotes level noteIndex = Some chord ->
        exists s,
          melodyNote noteIndex = Some s
          /\ melody chord
             = semitonesToFrequency C4_FREQ (IZR (level - 1 + s))
          /\ (harmony3 chord <> None <-> (3 <= level)%Z)
          /\ (harmony5 chord <> None <-> (5 <= level)%Z)
          /\ (forall h, harmony3 chord = Some h ->
                h = semitonesToFrequency (melody chord) 4)
          /\ (forall h, harmony5 chord = Some h ->
                h = semitonesToFrequency (melody chord) 7)
          /\ (forall chord',
                scheduleNotes (level + 1) noteIndex = Some chord' ->
                melody chord' = semitonesToFrequency (melody chord) 1)).
Proof.
  split; [exact semitones_add |]. split; [| split].
  - intros baseFreq s. rewrite <- semitones_add.
    unfold semitonesToFrequency at 1.
    replace (12 / 12) with 1 by lra. rewrite Rpower_1 by lra. ring.
  - intros baseFreq a b Hpos Hab. unfold semitonesToFrequency.
    apply Rmult_lt_compat_l; [exact Hpos |].
    apply Rpower_lt; lra.
  - intros level noteIndex chord H. unfold scheduleNotes in H.
    destruct (melodyNote noteIndex) as [s |] eqn:Hs; [| discriminate].
    injection H as <-. exists s. cbn [melody harmony3 harmony5].
    split; [reflexivity |].
    split; [rewrite semitones_add, <- plus_IZR; reflexivity |].
    split; [destruct (Z.leb_spec 3 level); split; intros; try lia;
            try discriminate; congruence |].
    split; [destruct (Z.leb_spec 5 level); split; intros; try lia;
            try discriminate; congruence |].
    split; [| split].
    + intros h Hh. destruct (3 <=? level)%Z; [| discriminate].
      injection Hh as <-. rewrite !semitones_add, plus_IZR.
      f_equal; try ring.
    + intros h Hh. destruct (5 <=? level)%Z; [| discriminate].
      injection Hh as <-. rewrite !semitones_add, plus_IZR.
      f_equal; try ring.
    + intros chord' H'. unfold scheduleNotes in H'. rewrite Hs in H'.
      injection H' as <-. cbn [melody].
      rewrite !semitones_add. f_equal.
      replace (level + 1 - 1)%Z with (level - 1 + 1)%Z by lia.
      rewrite plus_IZR; try ring.
Qed.

Local Close Scope R_scope.

Lemma clearScheduler_clean (p : Player) :
  intervals p = match schedulerRef p with Some id => [id] | None => [] end ->
  schedulerRef (clearScheduler p) = None
  /\ intervals (clearScheduler p) = []
  /\ audio (clearScheduler p) = audio p.
Proof.
  unfold clearScheduler. intros H.
  destruct (schedulerRef p) as [id |] eqn:E; cbn; [| rewrite E; auto].
  rewrite H. cbn. destruct (Nat.eq_dec id id); [auto | congruence].
Qed.

Lemma update_scheduler (p : Player) (props : Props) :
  intervals p = match schedulerRef p with Some id => [id] | None => [] end ->
  intervals (update p props)
    = match schedulerRef (update p props) with Some id => [id] | None => [] end
  /\ audio (update p props) = audio p
  /\ (schedulerRef (update p props) <> None
      <-> audio p = true /\ shouldPlay props = true)
  /\ (schedulerRef (update p props) <> None ->
      noteIndexRef (update p props) = 1%Z
      /\ masterGain (update p props) = MASTER_VOLUME).
Proof.
  intros H. unfold update, cleanup.
  destruct (clearScheduler_clean p H) as (H1 & H2 & H3).
  set (p0 := clearScheduler p) in *.
  assert (H0 : intervals p0
               = match schedulerRef p0 with Some id => [id] | None => [] end)
    by now rewrite H1, H2.
  destruct (clearScheduler_clean p0 H0) as (K1 & K2 & K3).
  unfold effect. set (p1 := clearScheduler p0) in *.
  rewrite K3, H3.
  destruct (audio p) eqn:A; cbn [negb].
  - destruct (shouldPlay props) eqn:S.
    + cbn. rewrite K2.
      split; [reflexivity |]. split; [reflexivity |].
      split; [split; [auto | discriminate] |]. auto.
    + cbn. rewrite K1, K2.
      split; [reflexivity |]. split; [reflexivity |].
      split; [split; [congruence | intros [_ ?]; discriminate] |].
      congruence.
  - rewrite K1, K2.
    split; [reflexivity |]. split; [congruence |].
    split; [split; [congruence | intros [? _]; discriminate] |].
    congruence.
Qed.

(** X25.  The music hook never has more than one interval running and
    never leaks one: after any sequence of renders with changed props, the
    timers alive are exactly the one in [schedulerRef], there is one exactly
    when the audio nodes exist and the last props say playing and enabled,
    the melody then starts again from its first note, and the cleanup
    leaves no timer behind. *)
Theorem music_scheduler_single (changes : list Props) (last : Props)
    (p : Player) :
  schedulerRef p = None -> intervals p = [] ->
  intervals (musicUpdates (changes ++ [last]) p)
    = match schedulerRef (musicUpdates (changes ++ [last]) p) with
      | Some id => [id]
      | None => []
      end
  /\ (schedulerRef (musicUpdates (changes ++ [last]) p) <> None
      <-> audio p = true /\ shouldPlay last = true)
  /\ (schedulerRef (musicUpdates (changes ++ [last]) p) <> None ->
      noteIndexRef (musicUpdates (changes ++ [last]) p) = 1%Z)
  /\ intervals (cleanup (musicUpdates (changes ++ [last]) p)) = [].
Proof.
  intros Hs Hi.
  assert (Hinv : forall l q,
             intervals q
               = match schedulerRef q with Some id => [id] | None => [] end ->
             intervals (musicUpdates l q)
               = match schedulerRef (musicUpdates l q) with
                 | Some id => [id]
                 | None => []
                 end
             /\ audio (musicUpdates l q) = audio q).
  { unfold musicUpdates. induction l as [| x l IH]; intros q Hq; cbn [fold_left];
      [auto |].
    destruct (update_scheduler q x Hq) as (H1 & H2 & _).
    destruct (IH _ H1) as [K1 K2]. split; [exact K1 | congruence]. }
  assert (H0 : intervals p
               = match schedulerRef p with Some id => [id] | None => [] end)
    by now rewrite Hs, Hi.
  destruct (Hinv changes p H0) as [H1 H2].
  unfold musicUpdates in *. rewrite fold_left_app. cbn [fold_left].
  destruct (update_scheduler _ last H1) as (K1 & K2 & K3 & K4).
  split; [exact K1 |]. split; [now rewrite K3, H2 |].
  split; [intros H; now apply K4 |].
  unfold cleanup. now apply clearScheduler_clean.
Qed.

End BackgroundMusic.

Lemma music_transposes_witness :
  (Music.semitonesToFrequency Music.C4_FREQ 0
   < Music.semitonesToFrequency Music.C4_FREQ 7)%R.
Proof.
  apply (proj1 (proj2 (proj2 music_transposes))).
  - unfold Music.C4_FREQ. lra.
  - lra.
Defined.

Lemma music_scheduler_single_witness :
  Music.intervals
    (Runs.musicUpdates
       ([Music.mkProps App.ready 1 true; Music.mkProps App.playing 1 true;
         Music.mkProps App.paused 1 true]
        ++ [Music.mkProps App.playing 1 true])
       (Music.mkPlayer true None [] 1 0 0))
  = match Music.schedulerRef
            (Runs.musicUpdates
               ([Music.mkProps App.ready 1 true;
                 Music.mkProps App.playing 1 true;
                 Music.mkProps App.paused 1 true]
                ++ [Music.mkProps App.playing 1 true])
               (Music.mkPlayer true None [] 1 0 0)) with
    | Some id => [id]
    | None => []
    end.
Proof.
  apply (proj1 (music_scheduler_single
                  [Music.mkProps App.ready 1 true;
                   Music.mkProps App.playing 1 true;
                   Music.mkProps App.paused 1 true]
                  (Music.mkProps App.playing 1 true)
                  (Music.mkPlayer true None [] 1 0 0) eq_refl eq_refl)).
Defined.

(** ** Persisted settings *)

Section Persisted.

Import PersistentState.

Variable T : Type.
Variable stringify : T -> string.
Variable parse : string -> option T.

(** X26.  A setting that was persisted is read back on the next start,
    provided JSON round-trips its value and never writes it as the empty
    string; writing one key leaves every other key as it was.  Reading
    falls back to the default, and never fails, when the storage throws,
    the key is missing, the stored text is empty or it does not parse. *)
Theorem persisted_state_round_trip :
  (forall v, parse (stringify v) = Some v) ->
  (forall v, stringify v <> ""%string) ->
  (forall storage key state defaultValue,
      exists storage',
        persist T stringify (Some storage) key state = Some storage'
        /\ initialState T parse (Some storage') key defaultValue = state
        /\ (forall other otherDefault,
              other <> key ->
              initialState T parse (Some storage') other otherDefault
              = initialState T parse (Some storage) other otherDefault))
  /\ (forall key defaultValue,
        initialState T parse None key defaultValue = defaultValue
        /\ persist T stringify None key defaultValue = None)
  /\ (forall storage key defaultValue,
        storage key = None \/ storage key = Some ""%string
        \/ (exists text, storage key = Some text /\ parse text = None) ->
        initialState T parse (Some storage) key defaultValue = defaultValue).
Proof.
  intros Hround Hnonempty. split; [| split].
  - intros storage key state defaultValue. eexists. split; [reflexivity |].
    split.
    + unfold initialState, setItem. rewrite String.eqb_refl.
      destruct (String.eqb_spec (stringify state) "") as [E | _];
        [destruct (Hnonempty _ E) |].
      now rewrite Hround.
    + intros other otherDefault Hne. unfold initialState, setItem.
      destruct (String.eqb_spec other key); [contradiction | reflexivity].
  - intros key defaultValue. split; reflexivity.
  - intros storage key defaultValue [H | [H | (text & H & Hp)]];
      unfold initialState; rewrite H; try reflexivity.
    destruct (String.eqb text ""); [reflexivity | now rewrite Hp].
Qed.

End Persisted.

Lemma persisted_state_round_trip_witness :
  exists storage',
    PersistentState.persist bool
      (fun b : bool => if b then "true"%string else "false"%string)
      (Some (fun _ => None)) "ufo-music-enabled" false
    = Some storage'
    /\ PersistentState.initialState bool
         (fun s => if String.eqb s "true" then Some true
                   else if String.eqb s "false" then Some false else None)
         (Some storage') "ufo-music-enabled" true
       = false.
Proof.
  destruct (proj1 (persisted_state_round_trip bool
                     (fun b : bool => if b then "true"%string else "false"%string)
                     (fun s => if String.eqb s "true" then Some true
                               else if String.eqb s "false" then Some false
                               else None)
                     ltac:(intros []; reflexivity)
                     ltac:(intros []; discriminate))
              (fun _ => None) "ufo-music-enabled"%string false true)
    as (storage' & H1 & H2 & _).
  exists storage'. split; assumption.
Defined.

(** ** The game as a whole *)

Section WholeGame.

Import LevelConfig Game.
Local Open Scope Z_scope.

Variable intersectsBox : Scene.Vector3 -> PipeSystem.PipeSegment -> nat -> bool.
Variable intersectsSphere : Scene.Vector3 -> PipeSystem.PipeSegment -> bool.
Variable Math_sin : Q -> Q.

Local Abbreviation useFrame :=
  (Scene.useFrame intersectsBox intersectsSphere Math_sin).
Local Abbreviation step := (Game.step intersectsBox intersectsSphere Math_sin).
Local Abbreviation play := (Game.play intersectsBox intersectsSphere Math_sin).

(** The calls of a frame leave the same queue whether or not [App] has an
    update pending: the handlers of passes, coins and traps set the score
    before they give a function that calls setters to a setter. *)
Lemma enqueue_busy (st : App.State) (q : list App.Dispatch) :
  App.enqueue false st q = Some q.
Proof. destruct q; reflexivity. Qed.

Lemma enqueue_app_calls (idle : bool) (st : App.State) (cs : list App.Call)
    (q : list App.Dispatch) :
  App.enqueue idle st (map App.call cs ++ q)
  = option_map (app (map App.call cs))
      (App.enqueue (idle && forallb (fun c => App.unchanged c st) cs) st q).
Proof.
  revert idle. induction cs as [| c cs IH]; intros idle.
  - cbn [map app forallb]. rewrite andb_true_r.
    destruct (App.enqueue idle st q); reflexivity.
  - destruct idle.
    + cbn [map app App.enqueue forallb andb]. rewrite IH.
      destruct (App.unchanged c st); cbn [andb];
        destruct (App.enqueue _ st q); reflexivity.
    + cbn [andb]. rewrite !enqueue_busy. reflexivity.
Qed.

Lemma enqueue_frame (idle : bool) (st0 st : App.State)
    (calls : list Scene.Callback) :
  (forall c, In c calls -> c <> Scene.onCrash) ->
  App.enqueue idle st (flat_map (fun c => handlerOf c st0) calls)
  = Some (flat_map (fun c => handlerOf c st0) calls).
Proof.
  revert idle. induction calls as [| c calls IH]; intros idle Hcalls;
    [destruct idle; reflexivity |].
  assert (Hrest : forall c', In c' calls -> c' <> Scene.onCrash)
    by (intros c' Hc'; apply Hcalls; now right).
  assert (Hc : c <> Scene.onCrash) by (apply Hcalls; now left).
  cbn [flat_map]. destruct idle; [| apply enqueue_busy].
  destruct c; cbn [handlerOf]; try congruence.
  - unfold App.handlePipePass. cbn -[Z.eqb Z.add flat_map].
    destruct (Z.eqb_spec (App.score st + 1) (App.score st)); [lia |].
    reflexivity.
  - unfold App.handleCoinCollect. cbn -[Z.eqb Z.add flat_map].
    destruct (Z.eqb_spec (App.score st + 5) (App.score st)); [lia |].
    reflexivity.
  - rewrite (enqueue_app_calls true st
               [App.playSound App.snd_trap;
                App.setWith App.Score (fun s => Z.max 0 (s - 3))]).
    rewrite (IH _ Hrest). reflexivity.
  - rewrite (enqueue_app_calls true st [App.playSound App.snd_flap]).
    rewrite (IH _ Hrest). reflexivity.
  - apply (IH true Hrest).
Qed.

Lemma dispatch_frame (idle : bool) (st : App.State)
    (calls : list Scene.Callback) :
  (forall c, In c calls -> c <> Scene.onCrash) ->
  dispatch idle calls st = dispatch false calls st.
Proof.
  intros Hcalls. unfold dispatch, App.fireWhen.
  now rewrite (enqueue_frame idle st st calls Hcalls), enqueue_busy.
Qed.

Lemma frame_schedule (idle : bool) (f : Scene.Frame) (sc : Scene.State)
    (st : App.State) :
  dispatch idle (snd (useFrame f sc)) st
  = dispatch false (snd (useFrame f sc)) st.
Proof.
  apply dispatch_frame. intros c Hin.
  now apply (useFrame_calls intersectsBox intersectsSphere Math_sin f sc c).
Qed.

Lemma effects_flight (random : Random) (old new : App.State)
    (sc sc' : Scene.State) :
  effects random old new sc = Some sc' ->
  Scene.x (Scene.ufoPosition sc) = 0%Q ->
  Scene.z (Scene.ufoPosition sc) = 0%Q ->
  Scene.z (Scene.ufoRotation sc) = 0%Q ->
  Scene.x (Scene.ufoPosition sc') = 0%Q
  /\ Scene.z (Scene.ufoPosition sc') = 0%Q
  /\ Scene.z (Scene.ufoRotation sc') = 0%Q.
Proof.
  unfold effects. destruct (getLevelConfig (App.level new)); [| discriminate].
  intros [= <-] Hx Hz Hr.
  match goal with
  | |- context [if ?c then _ else _] => destruct c
  end; cbn; auto.
Qed.

Lemma step_flight (random : Random) (i : Input) (w w' : World) :
  levelFlight w -> step random i w = Some w' -> levelFlight w'.
Proof.
  intros (Hx & Hz & Hr). unfold levelFlight.
  assert (Hrender : forall new sc,
             Scene.x (Scene.ufoPosition sc) = 0%Q ->
             Scene.z (Scene.ufoPosition sc) = 0%Q ->
             Scene.z (Scene.ufoRotation sc) = 0%Q ->
             render random w new sc = Some w' ->
             Scene.x (Scene.ufoPosition (scene w')) = 0%Q
             /\ Scene.z (Scene.ufoPosition (scene w')) = 0%Q
             /\ Scene.z (Scene.ufoRotation (scene w')) = 0%Q).
  { intros new sc Kx Kz Kr. unfold render.
    destruct (effects random (session w) new sc) as [sc' |] eqn:E;
      [| discriminate].
    intros [= <-]. cbn [scene]. eapply effects_flight; eauto. }
  destruct i as [delta elapsedTime | idle | touches | | b]; cbn [Game.step].
  - destruct (getLevelConfig (App.level (session w))) as [config |];
      [| discriminate].
    set (f := Scene.mkFrame (App.gameState (session w)) config
                (Scene.isCrashing (scene w)) delta elapsedTime).
    pose proof (useFrame_run_facts intersectsBox intersectsSphere Math_sin f
                  (scene w)) as (Fx & Fz & _).
    pose proof (useFrame_rotation intersectsBox intersectsSphere Math_sin f
                  (scene w) Hr) as Fr.
    destruct (useFrame f (scene w)) as [sc calls]. cbn [fst] in *.
    destruct (dispatch false calls (session w)) as [new |]; [| discriminate].
    apply Hrender; congruence.
  - unfold Scene.crashTimeout.
    destruct (Scene.crashTimers (scene w)); [intros [= <-]; auto |].
    destruct (dispatch idle [Scene.onCrash] (session w)) as [new |];
      [| discriminate].
    apply Hrender; assumption.
  - destruct (Controls.handleInput touches (App.gameState (session w)))
      as [g flapped].
    apply Hrender; destruct flapped; assumption.
  - destruct (App.fire App.handlePauseToggle (session w)) as [o |];
      [| discriminate].
    apply Hrender; assumption.
  - destruct (click b (session w)) as [new |]; [| discriminate].
    apply Hrender; assumption.
Qed.

(** X28.  The craft never leaves its line and never rolls: from the first
    render on, through every run of inputs, its position keeps [x = 0] and
    [z = 0] and its roll stays 0. *)
Theorem craft_keeps_its_line :
  (forall random w0, initial random = Some w0 -> levelFlight w0)
  /\ (forall inputs w w',
        levelFlight w -> play inputs w = Some w' -> levelFlight w').
Proof.
  split.
  - intros random w0. unfold initial.
    destruct (getLevelConfig 1); [| discriminate].
    intros [= <-]. unfold levelFlight. cbn. auto.
  - induction inputs as [| [i random] rest IH]; intros w w' Hf;
      cbn [Game.play].
    + now intros [= <-].
    + destruct (enabled i w); [| discriminate].
      destruct (step random i w) as [w1 |] eqn:Hs; [| discriminate].
      apply IH. eapply step_flight; eauto.
Qed.

Lemma render_mode_only (random : Random) (w : World) (g : App.GameState)
    (sc : Scene.State) (config : LevelConfig) :
  getLevelConfig (App.level (session w)) = Some config ->
  g <> App.gameState (session w) -> g <> App.ready ->
  render random w (App.putGameState g (session w)) sc
  = Some (mkWorld (App.putGameState g (session w))
            (Scene.mkState (Scene.ufoPosition sc) (Scene.ufoRotation sc)
               (Scene.ufoVisible sc) (Scene.ufoVelocity sc)
               (Scene.isCrashing sc) (Scene.crashTimers sc)
               (PipeSystem.resetAll config (gapDraw random)
                  (Scene.segments sc)))).
Proof.
  intros Hc Hg Hr. unfold render, effects, App.putGameState.
  cbn [App.level App.gameState]. rewrite Hc, Z.eqb_refl.
  destruct (GameState_eq_dec (App.gameState (session w)) g) as [E | _];
    [congruence |].
  destruct (GameState_eq_dec g App.ready) as [E | _]; [congruence |].
  cbn -[PipeSystem.resetAll PipeSystem.pipeSegments].
  rewrite !Z.eqb_refl. cbn [negb orb]. rewrite ?andb_false_r. reflexivity.
Qed.

(** X29.  Pausing and resuming resets the lane but not the session: after
    the two toggles the score, the lives, the level and the pipes passed
    are what they were and the craft has its height and velocity, but every
    segment is back at its start position [-(i * pipeSpacing) - 4 *
    gameSpeed], unpassed and with its coin showing, since the reset effect
    of the lane runs on every change of the mode. *)
Theorem pause_resume_resets_lane (random1 random2 : Random) (w : World) :
  invariant w -> App.gameState (session w) = App.playing ->
  exists w1 w2 config,
    step random1 PauseKey w = Some w1
    /\ App.gameState (session w1) = App.paused
    /\ step random2 PauseKey w1 = Some w2
    /\ getLevelConfig (App.level (session w)) = Some config
    /\ session w2 = session w
    /\ Scene.ufoPosition (scene w2) = Scene.ufoPosition (scene w)
    /\ Scene.ufoVelocity (scene w2) = Scene.ufoVelocity (scene w)
    /\ List.length (Scene.segments (scene w2))
       = List.length (Scene.segments (scene w))
    /\ (forall i s,
          nth_error (Scene.segments (scene w2)) i = Some s ->
          PipeSystem.passed s = false /\ PipeSystem.coinVisible s = true
          /\ PipeSystem.groupZ s
             = (- (inject_Z (Z.of_nat i) * pipeSpacing config)
                - gameSpeed config * 4)%Q).
Proof.
  intros (Inv & G & Hl & Hd & config & Hc & Hlen) Hg.
  assert (H1 : step random1 PauseKey w
               = render random1 w (App.putGameState App.paused (session w))
                   (scene w)).
  { cbn [Game.step]. rewrite handlePauseToggle_eq, Hg. reflexivity. }
  rewrite (render_mode_only random1 w App.paused (scene w) config Hc)
    in H1 by (rewrite ?Hg; discriminate).
  set (w1 := mkWorld (App.putGameState App.paused (session w)) _) in H1.
  assert (H2 : step random2 PauseKey w1
               = render random2 w1
                   (App.putGameState App.playing (session w1)) (scene w1)).
  { cbn [Game.step]. rewrite handlePauseToggle_eq. reflexivity. }
  rewrite (render_mode_only random2 w1 App.playing (scene w1) config Hc)
    in H2 by discriminate.
  eexists w1, _, config.
  split; [exact H1 |]. split; [reflexivity |]. split; [exact H2 |].
  split; [exact Hc |].
  cbn [session scene w1 Scene.ufoPosition Scene.ufoVelocity Scene.segments].
  split.
  { destruct (session w) as [g sc lv li co pp]. cbn in Hg. subst g.
    reflexivity. }
  split; [reflexivity |]. split; [reflexivity |]. split.
  { unfold PipeSystem.resetAll. now rewrite !resetFrom_length. }
  intros i s Hs. rewrite resetAll_nth in Hs.
  destruct (nth_error _ i) as [s0 |]; [| discriminate].
  injection Hs as <-. cbn. auto.
Qed.

End WholeGame.

Lemma craft_keeps_its_line_witness :
  exists w',
    Game.play (fun _ _ _ => false) (fun _ _ => false) (fun _ => 0%Q)
      [(Game.Flap None, Game.mkRandom (fun _ => 0.5%Q) (fun _ => 0.25%Q));
       (Game.Frame 0.016 1, Game.mkRandom (fun _ => 0.5%Q) (fun _ => 0.25%Q))]
      (Game.mkWorld (App.mkState App.ready 0 1 5 0 0)
         (Scene.mkState (Scene.mkVector3 0 2 0) (Scene.mkVector3 0 0 0) true
            0 false 0 []))
    = Some w'
    /\ Game.levelFlight w'.
Proof.
  destruct (Game.play (fun _ _ _ => false) (fun _ _ => false) (fun _ => 0%Q)
      [(Game.Flap None, Game.mkRandom (fun _ => 0.5%Q) (fun _ => 0.25%Q));
       (Game.Frame 0.016 1, Game.mkRandom (fun _ => 0.5%Q) (fun _ => 0.25%Q))]
      (Game.mkWorld (App.mkState App.ready 0 1 5 0 0)
         (Scene.mkState (Scene.mkVector3 0 2 0) (Scene.mkVector3 0 0 0) true
            0 false 0 []))) as [w' |] eqn:E.
  - exists w'. split; [reflexivity |].
    refine (proj2 (craft_keeps_its_line (fun _ _ _ => false)
                     (fun _ _ => false) (fun _ => 0%Q)) _ _ _ _ E).
    unfold Game.levelFlight. cbn. auto.
  - vm_compute in E. discriminate.
Defined.

Lemma pause_resume_resets_lane_witness :
  exists w1 w2,
    Game.step (fun _ _ _ => false) (fun _ _ => false) (fun _ => 0%Q)
      (Game.mkRandom (fun _ => 0.5%Q) (fun _ => 0.25%Q)) Game.PauseKey
      (Game.mkWorld (App.mkState App.playing 3 1 5 0 3)
         (Scene.mkState (Scene.mkVector3 0 3 0) (Scene.mkVector3 0 0 0) true
            (-1) false 0
            (PipeSystem.pipeSegments
               (LevelConfig.mkLevelConfig 3.2 4.5 10 10 "#4CAF50" 0.1)
               (fun _ => 0.5%Q))))
    = Some w1
    /\ Game.step (fun _ _ _ => false) (fun _ _ => false) (fun _ => 0%Q)
         (Game.mkRandom (fun _ => 0.5%Q) (fun _ => 0.75%Q)) Game.PauseKey w1
       = Some w2
    /\ App.pipesPassed (Game.session w2) = 3%Z
    /\ Game.session w2 = App.mkState App.playing 3 1 5 0 3.
Proof.
  destruct (pause_resume_resets_lane (fun _ _ _ => false) (fun _ _ => false)
              (fun _ => 0%Q)
              (Game.mkRandom (fun _ => 0.5%Q) (fun _ => 0.25%Q))
              (Game.mkRandom (fun _ => 0.5%Q) (fun _ => 0.75%Q))
              (Game.mkWorld (App.mkState App.playing 3 1 5 0 3)
                 (Scene.mkState (Scene.mkVector3 0 3 0)
                    (Scene.mkVector3 0 0 0) true (-1) false 0
                    (PipeSystem.pipeSegments
                       (LevelConfig.mkLevelConfig 3.2 4.5 10 10 "#4CAF50" 0.1)
                       (fun _ => 0.5%Q)))))
    as (w1 & w2 & config & H1 & _ & H2 & _ & Hs & _).
  - unfold Game.invariant, Game.sessionInv. cbn [Game.session Game.scene].
    rewrite MAX_LEVELS_eq. cbn.
    repeat split; try lia; try (intros; discriminate).
    eexists. split; reflexivity.
  - reflexivity.
  - exists w1, w2. split; [exact H1 |]. split; [exact H2 |].
    rewrite Hs. split; reflexivity.
Defined.
